(** * A shallow embedding of [1-BasicReduxApplication.js]

    The file has two parts.  The "library code" is [createStore]: a closure
    over the variables [state] and [listeners] that hands out [getState],
    [subscribe] and [dispatch].  The "app code" is the two slice reducers
    [todos] and [goals] and the root reducer [app].

    The store's three operations are Rocq functions on a record holding the
    closure's variables.  JavaScript arrays are objects: [listeners.push]
    changes the array in place, [listeners.filter] allocates a new array and
    the assignment rebinds the variable, and [listeners.forEach] keeps
    walking the array object it was called on.  The record therefore holds
    the *address* of the current listener array, next to the arrays
    allocated so far.  Exceptions are an explicit [Throw] completion. *)

From stdpp Require Import numbers list strings.

Set Default Proof Using "Type".

(** ** Completions of a JavaScript call *)

(** What a [throw] carries.  [TypeError] is raised by calling a value that
    is not a function and by reading a property of [undefined];
    [RangeError] is the engine's answer to an exhausted call stack. *)
Inductive exn : Type :=
| TypeError
| RangeError
| Error (msg : string).

Inductive completion (A : Type) : Type :=
| Normal (a : A)
| Throw (e : exn).
Arguments Normal {A} a.
Arguments Throw {A} e.

(** Sequencing of calls: a [throw] skips the rest. *)
#[global] Instance completion_bind : MBind completion := λ A B k c,
  match c with
  | Normal a => k a
  | Throw e => Throw e
  end.

Definition is_normal {A} (c : completion A) : Prop :=
  match c with Normal _ => True | Throw _ => False end.

(** ** Listeners *)

(** A value handed to [subscribe].  [Fn f] is the function object number
    [f]; two references are [===] exactly when they carry the same number.
    [NonFn v] stands for any value that cannot be called (a number, a
    string, [undefined], a plain object), again compared by its tag;
    [NaN], the one value that is not [===] to itself, is left out. *)
Inductive listener : Type :=
| Fn (f : nat)
| NonFn (v : nat).

#[global] Instance listener_eq_dec : EqDecision listener.
Proof. solve_decision. Defined.

(** The closure returned by [subscribe]: it captures [listener] and
    nothing else that distinguishes it. *)
Inductive handle : Type :=
| Handle (captured : listener).

Module Store.
Section Store.
Context {State Action : Type}.

(** [reducer(state, action)]: the state may be [undefined] ([None]) on
    the way in and on the way out, and the call may throw. *)
Definition reducer_t : Type := option State → Action → completion (option State).

(** The variables closed over by the three operations (lines 2, 48, 49),
    with the listener arrays they can reach. *)
Record store : Type := mkStore {
  reducer : reducer_t;
  state : option State;
  listeners : nat;
  heap : list (list listener)
}.

(** What a call of [dispatch] or of a listener evaluates to. *)
Inductive value : Type :=
| VUndefined
| VState (s : State)
| VAction (a : Action).

(** The call tree of a run: [Dispatched a] is a call [dispatch(a)],
    [Invoked l inner] is a call [listener()] made by line 61, with the
    events that happened inside it.  The [Invoked] nodes that follow a
    [Dispatched a] on the same level are that dispatch's notification
    pass. *)
#[warnings="-register-all"] Inductive event : Type :=
| Dispatched (a : Action)
| Invoked (l : listener) (inner : list event).

Definition result : Type := completion value * store * list event.

(** Client code: the body of a listener, or the script that owns the
    store.  It talks to the store through the three operations and the
    handles; each node carries the rest of the code as a function of what
    the operation gave back.  [Dispatch] hands over the completion itself,
    so a [try]/[catch] around the call is expressible. *)
Inductive prog : Type :=
| Return (v : value)
| Raise (e : exn)
| GetState (k : option State → prog)
| Subscribe (l : listener) (k : handle → prog)
| CallHandle (h : handle) (k : prog)
| Dispatch (a : Action) (k : completion value → prog).

(** [store.dispatch(a)] outside any [try]: a failure ends the code. *)
Definition Dispatch_ (a : Action) (k : prog) : prog :=
  Dispatch a (λ c, match c with Normal _ => k | Throw e => Raise e end).

(** The function objects of the client: [code f] is the body of [Fn f]. *)
Variable code : nat → prog.

(** *** The three operations *)

(** Lines 48-49: [let state; let listeners = []].  The reducer is kept,
    not called. *)
Definition createStore (r : reducer_t) : store :=
  {| reducer := r; state := None; listeners := 0; heap := [[]] |}.

(** Line 50. *)
Definition getState (st : store) : option State := state st.

Definition array (st : store) (r : nat) : list listener :=
  default [] (heap st !! r).

(** The array the variable [listeners] refers to. *)
Definition registered (st : store) : list listener :=
  array st (listeners st).

(** Lines 51-57.  [push] appends in place; no test on [listener]. *)
Definition subscribe (l : listener) (st : store) : handle * store :=
  (Handle l,
   {| reducer := reducer st; state := state st; listeners := listeners st;
      heap := alter (λ arr, arr ++ [l]) (listeners st) (heap st) |}).

(** Lines 54-56, the returned closure: a fresh array without the entries
    identical to the captured listener becomes the value of
    [listeners]. *)
Definition unsubscribe (h : handle) (st : store) : store :=
  let 'Handle l := h in
  {| reducer := reducer st; state := state st;
     listeners := length (heap st);
     heap := heap st ++ [filter (λ l', l' ≠ l) (registered st)] |}.

(** [Array.prototype.forEach] on the array object at [arr]: the length
    [len] is read once before the loop, then for [k = 0 .. len-1] the
    element is read from the object as it is *now* and the callback is
    called on it; an index that is not present is skipped.  Here [n]
    counts the indices still to visit, and [call] is
    [(listener) => listener()]. *)
Fixpoint forEach (call : listener → store → result)
    (arr : nat) (k n : nat) (st : store) : result :=
  match n with
  | 0 => (Normal VUndefined, st, [])
  | S n' =>
      match array st arr !! k with
      | None => forEach call arr (S k) n' st
      | Some l =>
          let '(c, st1, inner) := call l st in
          match c with
          | Throw e => (Throw e, st1, [Invoked l inner])
          | Normal _ =>
              let '(c2, st2, tr2) := forEach call arr (S k) n' st1 in
              (c2, st2, Invoked l inner :: tr2)
          end
      end
  end.

(** Running client code, given the store's [dispatch]. *)
Fixpoint exec (disp : Action → store → result) (p : prog) (st : store) : result :=
  match p with
  | Return v => (Normal v, st, [])
  | Raise e => (Throw e, st, [])
  | GetState k => exec disp (k (getState st)) st
  | Subscribe l k =>
      let '(h, st1) := subscribe l st in exec disp (k h) st1
  | CallHandle h k => exec disp k (unsubscribe h st)
  | Dispatch a k =>
      let '(c, st1, tr1) := disp a st in
      let '(c2, st2, tr2) := exec disp (k c) st1 in
      (c2, st2, tr1 ++ tr2)
  end.

(** Line 61's callback [(listener) => listener()].  Calling a value that
    is not a function throws.  [inner] is the [dispatch] the body of the
    listener reaches; there is none when the call stack has no room left
    for the call. *)
Definition call (inner : option (Action → store → result))
    (l : listener) (st : store) : result :=
  match l with
  | NonFn _ => (Throw TypeError, st, [])
  | Fn f =>
      match inner with
      | None => (Throw RangeError, st, [])
      | Some disp => exec disp (code f) st
      end
  end.

(** Lines 59-62.  Line 60 evaluates the reducer before it assigns; line
    61 walks the array that [listeners] refers to at that moment.  The
    block has no [return]. *)
Definition dispatch_body (inner : option (Action → store → result))
    (a : Action) (st : store) : result :=
  match reducer st (state st) a with
  | Throw e => (Throw e, st, [Dispatched a])
  | Normal s' =>
      let st1 := {| reducer := reducer st; state := s';
                    listeners := listeners st; heap := heap st |} in
      let '(c, st2, tr) :=
        forEach (call inner) (listeners st1) 0 (length (registered st1)) st1 in
      (match c with Normal _ => Normal VUndefined | Throw e => Throw e end,
       st2, Dispatched a :: tr)
  end.

(** [dispatch] with room for [depth] nested listener calls on the call
    stack. *)
Fixpoint dispatch (depth : nat) : Action → store → result :=
  dispatch_body
    match depth with
    | 0 => None
    | S d => Some (dispatch d)
    end.

(** The script that owns the store runs with the whole stack. *)
Definition run (depth : nat) (p : prog) (st : store) : result :=
  exec (dispatch depth) p st.

(** *** The actions handed to [dispatch]

    Read off the client code, at the places where it makes the calls.
    [passed] walks code as [exec] does; at a call [dispatch(a)] it lists
    [a], then [during a st], the actions the listeners hand over while
    that call notifies them, then what the rest of the code hands over. *)
Fixpoint passed (disp : Action → store → result)
    (during : Action → store → list Action) (p : prog) (st : store)
    : list Action :=
  match p with
  | Return _ | Raise _ => []
  | GetState k => passed disp during (k (getState st)) st
  | Subscribe l k =>
      let '(h, st1) := subscribe l st in passed disp during (k h) st1
  | CallHandle h k => passed disp during k (unsubscribe h st)
  | Dispatch a k =>
      let '(c, st1, _) := disp a st in
      a :: during a st ++ passed disp during (k c) st1
  end.

(** What the listeners called by one [forEach] hand over, [handed l st]
    being the share of listener [l] called on store [st]. *)
Fixpoint forEach_passed (call : listener → store → result)
    (handed : listener → store → list Action)
    (arr : nat) (k n : nat) (st : store) : list Action :=
  match n with
  | 0 => []
  | S n' =>
      match array st arr !! k with
      | None => forEach_passed call handed arr (S k) n' st
      | Some l =>
          let '(c, st1, _) := call l st in
          handed l st ++
          match c with
          | Throw _ => []
          | Normal _ => forEach_passed call handed arr (S k) n' st1
          end
      end
  end.

(** The actions handed over by the listeners during [dispatch(a)]: none
    when the reducer throws, else those of the bodies of the functions
    that line 61 calls.  [inner] is the [dispatch] those bodies reach,
    with its own account. *)
Definition during_body
    (inner : option ((Action → store → result) * (Action → store → list Action)))
    (a : Action) (st : store) : list Action :=
  match reducer st (state st) a with
  | Throw _ => []
  | Normal s' =>
      let st1 := {| reducer := reducer st; state := s';
                    listeners := listeners st; heap := heap st |} in
      forEach_passed (call (fst <$> inner))
        (λ l st, match l, inner with
                 | Fn f, Some (disp, during) => passed disp during (code f) st
                 | _, _ => []
                 end)
        (listeners st1) 0 (length (registered st1)) st1
  end.

Fixpoint during (depth : nat) : Action → store → list Action :=
  during_body
    match depth with
    | 0 => None
    | S d => Some (dispatch d, during d)
    end.

Definition completion_of (r : result) : completion value := r.1.1.
Definition store_of (r : result) : store := r.1.2.
Definition trace_of (r : result) : list event := r.2.

(** *** Reading a call tree *)

(** The actions passed to [dispatch], in the order of the calls. *)
Fixpoint actions_of (e : event) : list Action :=
  match e with
  | Dispatched a => [a]
  | Invoked _ inner => inner ≫= actions_of
  end.

Definition dispatched (tr : list event) : list Action := tr ≫= actions_of.

(** The listeners called on the top level of [tr]: for the tree of one
    [dispatch], those its own line 61 called, in order. *)
Definition pass_calls (tr : list event) : list listener :=
  omap (λ e, match e with Invoked l _ => Some l | Dispatched _ => None end) tr.

(** Every listener called anywhere in the tree. *)
Fixpoint calls_of (e : event) : list listener :=
  match e with
  | Dispatched _ => []
  | Invoked l inner => l :: (inner ≫= calls_of)
  end.

Definition all_calls (tr : list event) : list listener := tr ≫= calls_of.

(** Line 60 seen from outside: the state after [dispatch(a)] tried the
    reducer on state [s].  When the reducer throws, the assignment is not
    reached. *)
Definition next (r : reducer_t) (s : option State) (a : Action) : option State :=
  match r s a with
  | Normal s' => s'
  | Throw _ => s
  end.

(** *** Relations used to state invariants of a run *)

(** [f] relates each store to the store it leaves and the tree it
    builds. *)
Definition relates (R : store → store → list event → Prop)
    (f : store → result) : Prop :=
  ∀ st, R st (store_of (f st)) (trace_of (f st)).

(** A property of the [dispatch] the body of a listener reaches, if
    any. *)
Definition below (P : (Action → store → result) → Prop)
    (inner : option (Action → store → result)) : Prop :=
  match inner with
  | None => True
  | Some disp => P disp
  end.

(** The reducer is kept and the state is the fold over the actions of
    the tree. *)
Definition folds (st st' : store) (tr : list event) : Prop :=
  reducer st' = reducer st ∧
  state st' = foldl (next (reducer st)) (state st) (dispatched tr).

(** Every array of [st] is the beginning of the array at the same
    address in [st']. *)
Definition grows (st st' : store) : Prop :=
  ∀ r, array st r `prefix_of` array st' r.

Definition callable (l : listener) : Prop :=
  match l with Fn _ => True | NonFn _ => False end.

(** From a store without registration of [l]: arrays free of [l] stay
    so, [l] is still not registered afterwards, and the tree has no call
    of [l]. *)
Definition keeps_out (l : listener) (st st' : store) (tr : list event) : Prop :=
  l ∉ registered st →
  ((∀ r, l ∉ array st r → l ∉ array st' r) ∧
   (l ∉ registered st') ∧ (l ∉ all_calls tr)).

(** The variable [listeners] refers to an allocated array. *)
Definition wf (st : store) : Prop := listeners st < length (heap st).

(** Code that never calls [dispatch]. *)
Fixpoint never_dispatches (p : prog) : Prop :=
  match p with
  | Return _ | Raise _ => True
  | GetState k => ∀ s, never_dispatches (k s)
  | Subscribe _ k => ∀ h, never_dispatches (k h)
  | CallHandle _ k => never_dispatches k
  | Dispatch _ _ => False
  end.

(** Code that neither throws nor calls [dispatch]. *)
Fixpoint calm (p : prog) : Prop :=
  match p with
  | Return _ => True
  | Raise _ => False
  | GetState k => ∀ s, calm (k s)
  | Subscribe _ k => ∀ h, calm (k h)
  | CallHandle _ k => calm k
  | Dispatch _ _ => False
  end.

(** The client that dispatches the actions of a list one after the other,
    going on after a dispatch that threw. *)
Definition dispatch_each (acts : list Action) : prog :=
  foldr (λ a k, Dispatch a (λ _, k)) (Return VUndefined) acts.

(** Code that never passes [l] to [subscribe]. *)
Fixpoint never_subscribes (l : listener) (p : prog) : Prop :=
  match p with
  | Return _ | Raise _ => True
  | GetState k => ∀ s, never_subscribes l (k s)
  | Subscribe l' k => l' ≠ l ∧ ∀ h, never_subscribes l (k h)
  | CallHandle _ k => never_subscribes l k
  | Dispatch _ k => ∀ c, never_subscribes l (k c)
  end.

End Store.

Arguments reducer_t : clear implicits.
Arguments store : clear implicits.
Arguments value : clear implicits.
Arguments event : clear implicits.
Arguments result : clear implicits.
Arguments prog : clear implicits.
End Store.

(** ** The app code (lines 70-101) *)

(** The objects of the demonstration: [{id, name, complete}] and
    [{id, name}].  Numbers are the integers the script uses.  The
    reducers read [id] off whatever object they are given: [todo_id] and
    [goal_id] are [None] for an object without [id], where the read gives
    [undefined]. *)
Record todo_item : Type := Todo {
  todo_id : option Z;
  todo_name : string;
  todo_complete : bool
}.

Record goal_item : Type := Goal {
  goal_id : option Z;
  goal_name : string
}.

(** The object literals [{id: i, name: n, complete: c}] and
    [{id: i, name: n}]. *)
Definition mkTodo (i : Z) (n : string) (c : bool) : todo_item :=
  {| todo_id := Some i; todo_name := n; todo_complete := c |}.
Definition mkGoal (i : Z) (n : string) : goal_item :=
  {| goal_id := Some i; goal_name := n |}.

(** An action: the discriminant [type] and the fields the reducers read.
    A field the object does not have reads as [undefined] ([None]). *)
Record action : Type := mkAction {
  type : string;
  todo : option todo_item;
  goal : option goal_item;
  id : option Z
}.

(** The composite state object.  [{}], the default of [app]'s first
    parameter, has neither field. *)
Record app_state : Type := mkApp {
  todos_slice : option (list (option todo_item));
  goals_slice : option (list (option goal_item))
}.

(** [arr.filter(f)] and [arr.map(f)] with a callback that may throw: the
    elements are visited from the left and the first failure ends the
    call. *)
Fixpoint filterM {A} (f : A → completion bool) (l : list A) : completion (list A) :=
  match l with
  | [] => Normal []
  | x :: l' =>
      b ← f x; r ← filterM f l'; Normal (if b : bool then x :: r else r)
  end.

Fixpoint mapM' {A B} (f : A → completion B) (l : list A) : completion (list B) :=
  match l with
  | [] => Normal []
  | x :: l' => y ← f x; r ← mapM' f l'; Normal (y :: r)
  end.

(** Reading a property of an array element [x], as in [x.id]: on
    [undefined] the read throws. *)
Definition defined {A} (x : option A) : completion A :=
  match x with
  | None => Throw TypeError
  | Some o => Normal o
  end.

(** [a !== b] on two numbers-or-undefined ([undefined !== undefined] is
    false). *)
Definition strict_ne (a b : option Z) : bool := bool_decide (a ≠ b).

(** [Object.assign({}, todo, { complete: !todo.complete })]: a new object
    with the fields of [todo] and the flag inverted. *)
Definition toggled (t : todo_item) : todo_item :=
  {| todo_id := todo_id t; todo_name := todo_name t;
     todo_complete := negb (todo_complete t) |}.

(** Lines 71-83.  An array element is [None] when [action.todo] was
    [undefined] at the time it was added. *)
Definition todos (state : option (list (option todo_item))) (action : action)
    : completion (list (option todo_item)) :=
  let state := default [] state in
  if decide (type action = "ADD_TODO") then
    Normal (state ++ [todo action])
  else if decide (type action = "REMOVE_TODO") then
    filterM (λ todo,
      t ← defined todo; Normal (strict_ne (todo_id t) (id action))) state
  else if decide (type action = "TOGGLE_TODO") then
    mapM' (λ todo,
      t ← defined todo;
      Normal (if strict_ne (todo_id t) (id action) then todo
              else Some (toggled t))) state
  else Normal state.

(** Lines 85-94. *)
Definition goals (state : option (list (option goal_item))) (action : action)
    : completion (list (option goal_item)) :=
  let state := default [] state in
  if decide (type action = "ADD_GOAL") then
    Normal (state ++ [goal action])
  else if decide (type action = "REMOVE_GOAL") then
    filterM (λ goal,
      g ← defined goal; Normal (strict_ne (goal_id g) (id action))) state
  else Normal state.

(** Lines 96-101.  The two properties of the object literal are evaluated
    in the order written. *)
Definition app (state : option app_state) (action : action) : completion app_state :=
  let state := default (mkApp None None) state in
  t ← todos (todos_slice state) action;
  g ← goals (goals_slice state) action;
  Normal (mkApp (Some t) (Some g)).

(** The [case] labels of the two [switch] statements. *)
Definition todos_cases : list string := ["ADD_TODO"; "REMOVE_TODO"; "TOGGLE_TODO"].
Definition goals_cases : list string := ["ADD_GOAL"; "REMOVE_GOAL"].

(** [app] as the argument of [createStore]. *)
Definition app_reducer : Store.reducer_t app_state action :=
  λ state action, s ← app state action; Normal (Some s).

(** ** The script of lines 102-164 and other clients *)

Import Store.

Definition plain (type : string) : action :=
  {| type := type; todo := None; goal := None; id := None |}.
Definition add_todo (t : todo_item) : action :=
  {| type := "ADD_TODO"; todo := Some t; goal := None; id := None |}.
Definition add_goal (g : goal_item) : action :=
  {| type := "ADD_GOAL"; todo := None; goal := Some g; id := None |}.
Definition with_id (type : string) (i : Z) : action :=
  {| type := type; todo := None; goal := None; id := Some i |}.

(** Lines 104-106: the one listener of the script reads the state (and
    prints it, which the store does not see). *)
Definition demo_code (f : nat) : prog app_state action :=
  match f with
  | 0 => GetState (λ _, Return VUndefined)
  | _ => Return VUndefined
  end.

(** Lines 102-164. *)
Definition demo_actions : list action :=
  [ add_todo (mkTodo 0 "Walk the dog" false);
    add_todo (mkTodo 1 "Wash the car" false);
    add_todo (mkTodo 2 "Go to the gym" true);
    with_id "REMOVE_TODO" 1;
    with_id "TOGGLE_TODO" 0;
    add_goal (mkGoal 0 "Learn Redux");
    add_goal (mkGoal 1 "Lose 20 pounds");
    with_id "REMOVE_GOAL" 0 ].

Definition demo_script : prog app_state action :=
  Subscribe (Fn 0) (λ _,
    foldr Dispatch_ (Return VUndefined) demo_actions).

(** A client whose first listener changes the subscriptions while it is
    being notified: it subscribes [Fn 2] and calls the handle of [Fn 1].
    [Fn 3] dispatches once more from inside the pass. *)
Definition churn_code (f : nat) : prog app_state action :=
  match f with
  | 0 => Subscribe (Fn 2) (λ _, CallHandle (Handle (Fn 1)) (Return VUndefined))
  | 3 => GetState (λ s,
           match s with
           | Some (mkApp _ (Some [])) =>
               Dispatch_ (add_goal (mkGoal 7 "Nested")) (Return VUndefined)
           | _ => Return VUndefined
           end)
  | _ => Return VUndefined
  end.

Definition churn_store : store app_state action :=
  (subscribe (Fn 3) (subscribe (Fn 1) (subscribe (Fn 0)
     (createStore app_reducer)).2).2).2.

(** A store whose todo list holds an [undefined] entry, left by an
    [ADD_TODO] action without a [todo] field: [REMOVE_TODO] then throws. *)
Definition holed_store : store app_state action :=
  store_of (run demo_code 1
    (Subscribe (Fn 0) (λ _, Dispatch_ (plain "ADD_TODO") (Return VUndefined)))
    (createStore app_reducer)).

(** Two dispatches in a row, as the script makes them. *)
Definition two_dispatches (a b : action) : prog app_state action :=
  Dispatch_ a (Dispatch_ b (Return VUndefined)).

(** An array all of whose elements are objects. *)
Definition objects {A} (xs : list A) : list (option A) := Some <$> xs.

(** The composite state with its two arrays, all elements objects. *)
Definition full_state (ts : list todo_item) (gs : list goal_item) : app_state :=
  {| todos_slice := Some (objects ts); goals_slice := Some (objects gs) |}.

(** An [ADD_TODO] action has its [todo], an [ADD_GOAL] action its
    [goal]. *)
Definition carries_payload (a : action) : Prop :=
  (type a = "ADD_TODO" → is_Some (todo a)) ∧
  (type a = "ADD_GOAL" → is_Some (goal a)).

(** A client whose first listener throws. *)
Definition faulty_code (f : nat) : prog app_state action :=
  match f with
  | 0 => Raise (Error "listener failed")
  | _ => Return VUndefined
  end.

Definition faulty_store : store app_state action :=
  (subscribe (Fn 1) (subscribe (Fn 0) (createStore app_reducer)).2).2.

(** A reducer that counts the actions, and a client of it whose listener
    dispatches again each time it is notified. *)
Definition counting : reducer_t nat string :=
  λ state action, Normal (Some (S (default 0 state))).

Definition looping_code (f : nat) : prog nat string :=
  match f with
  | 0 => Dispatch_ "AGAIN" (Return VUndefined)
  | _ => Return VUndefined
  end.

Definition looping_store : store nat string :=
  (subscribe (Fn 0) (createStore counting)).2.

(** * Properties of the store *)

Section StoreProperties.
Context {State Action : Type}.
Variable code : nat → prog State Action.

Implicit Types (st : store State Action) (a : Action) (l : listener)
  (tr : list (event Action)) (c : completion (value State Action))
  (p : prog State Action)
  (inner : option (Action → store State Action → result State Action)).

Lemma dispatch_unfold depth :
  dispatch code depth
  = dispatch_body code
      match depth with 0 => None | S d => Some (dispatch code d) end.
Proof. by destruct depth. Qed.

(** What holds of [dispatch_body] whenever it holds of the [dispatch]
    below holds of [dispatch] at every depth. *)
Lemma below_dispatch P depth :
  (∀ inner, below P inner → P (dispatch_body code inner)) →
  P (dispatch code depth).
Proof.
  intros Hbody. induction depth as [|d IH]; simpl; apply Hbody; simpl; done.
Qed.

(** ** Relations kept by every run

    A relation between the store before, the store after and the call
    tree in between holds of every run as soon as it holds of the
    elementary steps and composes. *)
Section Invariant.
Variable R : store State Action → store State Action → list (event Action) → Prop.
Hypothesis R_refl : ∀ st, R st st [].
Hypothesis R_seq : ∀ st st1 st2 tr1 tr2,
  R st st1 tr1 → R st1 st2 tr2 → R st st2 (tr1 ++ tr2).
Hypothesis R_subscribe : ∀ l st, R st (subscribe l st).2 [].
Hypothesis R_unsubscribe : ∀ h st, R st (unsubscribe h st) [].
Hypothesis R_assign : ∀ st a s',
  reducer st (state st) a = Normal s' →
  R st (mkStore (reducer st) s' (listeners st) (heap st)) [Dispatched a].
Hypothesis R_throw : ∀ st a e,
  reducer st (state st) a = Throw e → R st st [Dispatched a].
Hypothesis R_invoke : ∀ st st' l tr,
  R st st' tr → R st st' [Invoked l tr].

Lemma exec_rel disp p :
  (∀ a, relates R (disp a)) → relates R (exec disp p).
Proof using R_refl R_seq R_subscribe R_unsubscribe.
  intros Hdisp.
  induction p as [v|e|k IH|l k IH|h k IH|a k IH]; intros st; simpl.
  - apply R_refl.
  - apply R_refl.
  - apply IH.
  - apply (R_seq _ _ _ [] _ (R_subscribe l st)), IH.
  - apply (R_seq _ _ _ [] _ (R_unsubscribe h st)), IH.
  - specialize (Hdisp a st).
    destruct (disp a st) as [[c1 st1] tr1].
    specialize (IH c1 st1).
    destruct (exec disp (k c1) st1) as [[c2 st2] tr2].
    by eapply R_seq.
Qed.

Lemma forEach_rel f arr n k :
  (∀ l, relates R (f l)) → relates R (forEach f arr k n).
Proof using R_refl R_seq R_invoke.
  intros Hf. revert k.
  induction n as [|n IH]; intros k st; simpl.
  - apply R_refl.
  - destruct (array st arr !! k) as [l|]; [|apply IH].
    specialize (Hf l st).
    destruct (f l st) as [[c1 st1] inner].
    apply (R_invoke _ _ l) in Hf.
    destruct c1 as [v|e]; [|done].
    specialize (IH (S k) st1).
    destruct (forEach f arr (S k) n st1) as [[c2 st2] tr2].
    apply (R_seq _ _ _ [Invoked l inner] tr2 Hf IH).
Qed.

Lemma call_rel inner l :
  below (λ disp, ∀ a, relates R (disp a)) inner →
  relates R (call code inner l).
Proof using R_refl R_seq R_subscribe R_unsubscribe.
  intros Hin. destruct l as [f|v]; [|intros st; apply R_refl].
  destruct inner as [disp|]; [|intros st; apply R_refl].
  by apply exec_rel.
Qed.

Lemma dispatch_body_rel inner a :
  below (λ disp, ∀ a, relates R (disp a)) inner →
  relates R (dispatch_body code inner a).
Proof using All.
  intros Hin st. unfold dispatch_body.
  destruct (reducer st (state st) a) as [s'|e] eqn:Er; [|by eapply R_throw].
  pose proof (forEach_rel (call code inner) (listeners st)
    (length (registered (mkStore (reducer st) s' (listeners st) (heap st)))) 0
    (λ l, call_rel inner l Hin)
    (mkStore (reducer st) s' (listeners st) (heap st))) as Hfe.
  simpl in *.
  destruct (forEach _ _ _ _ _) as [[c2 st2] tr2].
  apply (R_seq _ _ _ [Dispatched a] tr2 (R_assign _ _ _ Er) Hfe).
Qed.

Lemma dispatch_rel depth a : relates R (dispatch code depth a).
Proof using All.
  revert a.
  apply (below_dispatch (λ disp, ∀ a, relates R (disp a))).
  intros inner Hin a. by apply dispatch_body_rel.
Qed.

Lemma run_rel depth p : relates R (run code depth p).
Proof using All. apply exec_rel, dispatch_rel. Qed.
End Invariant.

(** ** The state is the fold of the reducer *)

Lemma folds_seq st st1 st2 tr1 tr2 :
  folds st st1 tr1 → folds st1 st2 tr2 → folds st st2 (tr1 ++ tr2).
Proof.
  intros [Hr1 Hs1] [Hr2 Hs2]. split; [congruence|].
  unfold dispatched in *. rewrite bind_app, foldl_app.
  by rewrite Hs2, Hr1, Hs1.
Qed.

Lemma run_folds depth p : relates folds (run code depth p).
Proof.
  apply run_rel; clear.
  - by intros st.
  - apply folds_seq.
  - by intros l st.
  - by intros [l] st.
  - intros st a s' Hr. split; [done|]. simpl. unfold next. by rewrite Hr.
  - intros st a e Hr. split; [done|]. simpl. unfold next. by rewrite Hr.
  - intros st st' l inner [Hr Hs]. split; [done|].
    unfold dispatched in *. simpl. by rewrite app_nil_r.
Qed.

(** When no listener dispatches, the actions of a run are those of the
    script. *)
Lemma exec_silent disp p st :
  never_dispatches p → trace_of (exec disp p st) = [].
Proof.
  revert st. induction p as [v|e|k IH|l k IH|h k IH|a k IH]; intros st Hp;
    simpl in *; [done|done|by apply IH|by apply IH|by apply IH|done].
Qed.

Lemma forEach_silent f arr n k st :
  (∀ l st, dispatched (trace_of (f l st)) = []) →
  dispatched (trace_of (forEach f arr k n st)) = [].
Proof.
  intros Hf. revert k st. induction n as [|n IH]; intros k st; simpl; [done|].
  destruct (array st arr !! k) as [l|]; [|apply IH].
  specialize (Hf l st). destruct (f l st) as [[[v|e] st1] sub].
  - specialize (IH (S k) st1).
    destruct (forEach f arr (S k) n st1) as [[c2 st2] tr2].
    unfold dispatched, trace_of in *. cbn [snd] in *.
    rewrite bind_cons. cbn [actions_of]. by rewrite Hf, IH.
  - unfold dispatched, trace_of in *. cbn [snd] in *.
    rewrite bind_cons. cbn [actions_of]. by rewrite Hf.
Qed.

Lemma dispatch_silent depth a st :
  (∀ f, never_dispatches (code f)) →
  dispatched (trace_of (dispatch code depth a st)) = [a].
Proof.
  intros Hcode.
  rewrite dispatch_unfold.
  unfold dispatch_body. destruct (reducer st (state st) a) as [s'|e]; [|done].
  set (st1 := mkStore (reducer st) s' (listeners st) (heap st)).
  pose proof (forEach_silent
    (call code match depth with 0 => None | S d => Some (dispatch code d) end)
    (listeners st) (length (registered st1)) 0 st1) as Hfe.
  cbn [listeners] in *. destruct (forEach _ _ _ _ _) as [[c2 st2] tr2].
  unfold dispatched, trace_of in *. cbn [snd] in *.
  rewrite bind_cons. cbn [actions_of]. rewrite Hfe; [done|].
  intros [f|v] st0; [|done].
  destruct depth; [done|]. unfold call.
  change (?r.2) with (trace_of r). by rewrite exec_silent.
Qed.

Lemma dispatch_each_dispatched depth acts st :
  (∀ f, never_dispatches (code f)) →
  dispatched (trace_of (run code depth (dispatch_each acts) st)) = acts.
Proof.
  intros Hcode. revert st. induction acts as [|a acts IH]; intros st; [done|].
  unfold run in *. simpl.
  pose proof (dispatch_silent depth a st Hcode) as Ha.
  destruct (dispatch code depth a st) as [[c1 st1] tr1].
  specialize (IH st1).
  destruct (exec (dispatch code depth) (dispatch_each acts) st1) as [[c2 st2] tr2].
  unfold dispatched, trace_of in *. cbn [snd] in *.
  by rewrite bind_app, Ha, IH.
Qed.

(** X9.  Dispatching a list of actions, with listeners that do not dispatch
    themselves: the state is the fold over that list. *)
Lemma dispatch_each_folds depth acts st :
  (∀ f, never_dispatches (code f)) →
  getState (store_of (run code depth (dispatch_each acts) st))
  = foldl (next (reducer st)) (getState st) acts.
Proof.
  intros Hcode. destruct (run_folds depth (dispatch_each acts) st) as [_ Hs].
  by rewrite dispatch_each_dispatched in Hs.
Qed.

(** ** The call tree lists the actions the client handed over *)

Lemma exec_passed disp during p st :
  (∀ a st, dispatched (trace_of (disp a st)) = a :: during a st) →
  dispatched (trace_of (exec disp p st)) = passed disp during p st.
Proof.
  intros Hdisp. revert st.
  induction p as [v|e|k IH|l k IH|h k IH|a k IH]; intros st; simpl;
    [done|done|apply IH|apply IH|apply IH|].
  specialize (Hdisp a st). destruct (disp a st) as [[c1 st1] tr1].
  specialize (IH c1 st1).
  destruct (exec disp (k c1) st1) as [[c2 st2] tr2].
  unfold dispatched, trace_of in *. cbn [snd] in *.
  by rewrite bind_app, Hdisp, IH.
Qed.

Lemma forEach_passed_trace f handed arr n k st :
  (∀ l st, dispatched (trace_of (f l st)) = handed l st) →
  dispatched (trace_of (forEach f arr k n st)) = forEach_passed f handed arr k n st.
Proof.
  intros Hf. revert k st. induction n as [|n IH]; intros k st; simpl; [done|].
  destruct (array st arr !! k) as [l|]; [|apply IH].
  specialize (Hf l st). destruct (f l st) as [[[v|e] st1] sub].
  - specialize (IH (S k) st1).
    destruct (forEach f arr (S k) n st1) as [[c2 st2] tr2].
    unfold dispatched, trace_of in *. cbn [snd] in *.
    rewrite bind_cons. cbn [actions_of]. by rewrite Hf, IH.
  - unfold dispatched, trace_of in *. cbn [snd] in *.
    rewrite bind_cons. cbn [actions_of]. by rewrite Hf.
Qed.

Lemma dispatch_body_during
    (inner : option ((Action → store State Action → result State Action) *
                     (Action → store State Action → list Action))) a st :
  match inner with
  | None => True
  | Some (disp, during) =>
      ∀ a st, dispatched (trace_of (disp a st)) = a :: during a st
  end →
  dispatched (trace_of (dispatch_body code (fst <$> inner) a st))
  = a :: during_body code inner a st.
Proof.
  intros Hin. unfold dispatch_body, during_body.
  destruct (reducer st (state st) a) as [s'|e]; [|done].
  set (st1 := mkStore (reducer st) s' (listeners st) (heap st)).
  erewrite <- (forEach_passed_trace (call code (fst <$> inner))).
  - destruct (forEach _ _ _ _ _) as [[c2 st2] tr2].
    unfold dispatched, trace_of. cbn [snd]. by rewrite bind_cons.
  - intros [f|v] st0; [|by destruct inner as [[??]|]].
    destruct inner as [[disp during]|]; [|done].
    simpl. by apply exec_passed.
Qed.

Lemma dispatch_during depth a st :
  dispatched (trace_of (dispatch code depth a st)) = a :: during code depth a st.
Proof.
  revert a st. induction depth as [|d IH]; intros a st.
  - apply (dispatch_body_during None a st I).
  - apply (dispatch_body_during (Some (dispatch code d, during code d)) a st IH).
Qed.

Lemma run_passed depth p st :
  dispatched (trace_of (run code depth p st))
  = passed (dispatch code depth) (during code depth) p st.
Proof. apply exec_passed, dispatch_during. Qed.

(** With listeners that do not dispatch, the client that dispatches a
    list hands over that list. *)
Lemma passed_dispatch_each depth acts st :
  (∀ f, never_dispatches (code f)) →
  passed (dispatch code depth) (during code depth) (dispatch_each acts) st = acts.
Proof.
  intros Hcode. rewrite <- run_passed. by apply dispatch_each_dispatched.
Qed.

(** ** Arrays only grow at the end

    No operation of the store removes or replaces an element of an
    existing array: [push] appends, [filter] builds another array. *)

Lemma grows_refl st st' : heap st = heap st' → grows st st'.
Proof. intros Hh r. unfold array. by rewrite Hh. Qed.

Lemma grows_trans st st1 st2 : grows st st1 → grows st1 st2 → grows st st2.
Proof. intros H1 H2 r. etrans; [apply H1|apply H2]. Qed.

Lemma grows_subscribe l st : grows st (subscribe l st).2.
Proof.
  intros r. unfold array, subscribe. cbn [snd heap].
  destruct (decide (listeners st = r)) as [<-|Hne].
  - rewrite list_lookup_alter_eq.
    destruct (heap st !! listeners st); simpl; [by apply prefix_app_r|done].
  - by rewrite list_lookup_alter_ne.
Qed.

Lemma grows_unsubscribe h st : grows st (unsubscribe h st).
Proof.
  destruct h as [l]. intros r. unfold array at 1 2, unsubscribe.
  cbn [heap]. destruct (heap st !! r) as [arr|] eqn:E; simpl.
  - by rewrite (lookup_app_l_Some _ _ _ _ E).
  - apply prefix_nil.
Qed.

Lemma dispatch_grows depth a :
  relates (λ st st' _, grows st st') (dispatch code depth a).
Proof.
  apply (dispatch_rel (λ st st' _, grows st st')); clear.
  - by intros st; apply grows_refl.
  - intros st st1 st2 _ _. apply grows_trans.
  - apply grows_subscribe.
  - apply grows_unsubscribe.
  - by intros st a s' _; apply grows_refl.
  - by intros st a e _; apply grows_refl.
  - done.
Qed.

(** ** Well-formed stores *)

Lemma wf_createStore r : wf (@createStore State Action r).
Proof. unfold wf. simpl. lia. Qed.

Lemma wf_subscribe l st : wf st → wf (subscribe l st).2.
Proof. unfold wf, subscribe. cbn [snd heap listeners]. by rewrite length_alter. Qed.

Lemma wf_unsubscribe h st : wf (unsubscribe h st).
Proof.
  destruct h as [l]. unfold wf, unsubscribe. cbn [heap listeners].
  rewrite length_app. simpl. lia.
Qed.

Lemma run_wf depth p :
  relates (λ st st' _, wf st → wf st') (run code depth p).
Proof.
  apply (run_rel (λ st st' _, wf st → wf st')); clear; try done.
  - intros st st1 st2 _ _. tauto.
  - apply wf_subscribe.
  - intros h st _. apply wf_unsubscribe.
Qed.

Lemma registered_subscribe l st :
  wf st → registered (subscribe l st).2 = registered st ++ [l].
Proof.
  intros Hwf. unfold registered, array, subscribe. cbn [snd heap listeners].
  rewrite list_lookup_alter_eq.
  destruct (lookup_lt_is_Some_2 (heap st) (listeners st) Hwf) as [arr ->].
  done.
Qed.

Lemma filter_absent l (ls : list listener) :
  l ∉ ls → filter (λ l', l' ≠ l) ls = ls.
Proof.
  induction ls as [|x ls IH]; [done|].
  rewrite not_elem_of_cons. intros [Hne Hls].
  rewrite filter_cons_True by done. by rewrite IH.
Qed.

Lemma registered_unsubscribe l st :
  registered (unsubscribe (Handle l) st) = filter (λ l', l' ≠ l) (registered st).
Proof.
  unfold registered at 1, array, unsubscribe. cbn [heap listeners].
  by rewrite lookup_app_r, Nat.sub_diag by done.
Qed.

(** ** One pass of [forEach] *)

(** With a callback that lets arrays only grow, [forEach] calls the
    elements the array had at indices [k .. k+n-1] when the loop began,
    up to the first call that throws; a callback that never returns from
    a value that is not a function has returned from functions only. *)
Lemma forEach_calls f arr n :
  (∀ l, relates (λ st st' _, grows st st') (f l)) →
  ∀ k st,
    k + n ≤ length (array st arr) →
    let r := forEach f arr k n st in
    pass_calls (trace_of r) `prefix_of` take n (drop k (array st arr)) ∧
    (is_normal (completion_of r) →
     pass_calls (trace_of r) = take n (drop k (array st arr)) ∧
     ((∀ v st0, ¬ is_normal (completion_of (f (NonFn v) st0))) →
      Forall callable (pass_calls (trace_of r)))).
Proof.
  intros Hf.
  induction n as [|n IH]; intros k st Hlen; simpl.
  - by rewrite take_0.
  - destruct (lookup_lt_is_Some_2 (array st arr) k) as [l Hl]; [lia|].
    rewrite Hl, (drop_S _ _ _ Hl). simpl.
    pose proof (Hf l st) as Hg.
    destruct (f l st) as [[c1 st1] sub] eqn:Ef.
    unfold store_of in Hg. simpl in Hg.
    destruct c1 as [v|e]; simpl.
    + destruct (Hg arr) as [ext Hext].
      specialize (IH (S k) st1).
      destruct (forEach f arr (S k) n st1) as [[c2 st2] tr2].
      unfold completion_of, trace_of in *. simpl in *.
      assert (take n (drop (S k) (array st1 arr))
              = take n (drop (S k) (array st arr))) as Heq.
      { rewrite Hext, drop_app_le, take_app_le; [done| |lia].
        rewrite length_drop. lia. }
      rewrite Heq in IH.
      destruct IH as [IH1 IH2]; [rewrite Hext, length_app; lia|].
      split; [by apply prefix_cons|]. intros Hn.
      destruct (IH2 Hn) as [IH3 IH4]. split; [by rewrite IH3|].
      intros Hnon. constructor; [|by apply IH4].
      destruct l as [g|w]; [done|].
      apply (Hnon w st). by rewrite Ef.
    + split; [|done]. apply prefix_cons, prefix_nil.
Qed.

Lemma call_grows depth l :
  relates (λ st st' _, grows st st')
    (call code match depth with 0 => None | S d => Some (dispatch code d) end l).
Proof.
  apply (call_rel (λ st st' _, grows st st')).
  - by intros st; apply grows_refl.
  - intros st st1 st2 _ _. apply grows_trans.
  - apply grows_subscribe.
  - apply grows_unsubscribe.
  - destruct depth as [|d]; simpl; [done|]. intros a. apply dispatch_grows.
Qed.

(** The pass of a dispatch calls a prefix of the array registered when
    the dispatch was made: the whole of it when the dispatch returns, and
    then every element was a function. *)
Lemma dispatch_pass depth a st :
  let r := dispatch code depth a st in
  pass_calls (trace_of r) `prefix_of` registered st ∧
  (is_normal (completion_of r) →
   pass_calls (trace_of r) = registered st ∧ Forall callable (registered st)).
Proof.
  rewrite dispatch_unfold.
  unfold dispatch_body.
  destruct (reducer st (state st) a) as [s'|e]; simpl;
    [|split; [apply prefix_nil|done]].
  set (st1 := mkStore (reducer st) s' (listeners st) (heap st)).
  destruct (forEach_calls _ (listeners st) (length (registered st1))
    (call_grows depth) 0 st1) as [H1 H2]; [done|].
  change (array st1 (listeners st)) with (registered st) in *.
  change (registered st1) with (registered st) in *.
  rewrite drop_0, firstn_all in *.
  destruct (forEach _ _ _ _ _) as [[c2 st2] tr2].
  unfold completion_of, trace_of in *. simpl in *.
  split; [done|]. intros Hn.
  destruct H2 as [H2 H3]; [by destruct c2|].
  split; [done|]. rewrite <- H2. apply H3.
  intros _ _ [].
Qed.

(** ** A dispatch over calm listeners returns *)

Lemma exec_calm disp p st :
  calm p →
  is_normal (completion_of (exec disp p st)) ∧ grows st (store_of (exec disp p st)).
Proof.
  revert st. induction p as [v|e|k IH|l k IH|h k IH|a k IH]; intros st Hp;
    simpl in *; try done.
  - split; [done|]. by apply grows_refl.
  - by apply IH.
  - destruct (IH (Handle l) (subscribe l st).2 (Hp _)) as [Hn Hg].
    split; [done|]. eapply grows_trans; [apply grows_subscribe|done].
  - destruct (IH (unsubscribe h st) Hp) as [Hn Hg].
    split; [done|]. eapply grows_trans; [apply grows_unsubscribe|done].
Qed.

Lemma forEach_calm f arr n :
  (∀ l st, callable l →
     is_normal (completion_of (f l st)) ∧ grows st (store_of (f l st))) →
  ∀ k st,
    k + n ≤ length (array st arr) →
    Forall callable (take n (drop k (array st arr))) →
    is_normal (completion_of (forEach f arr k n st)).
Proof.
  intros Hf. induction n as [|n IH]; intros k st Hlen Hall; simpl; [done|].
  destruct (lookup_lt_is_Some_2 (array st arr) k) as [l Hl]; [lia|].
  rewrite Hl. rewrite (drop_S _ _ _ Hl) in Hall. simpl in Hall.
  apply Forall_cons in Hall as [Hl' Hall].
  destruct (Hf l st Hl') as [Hn Hg].
  destruct (f l st) as [[[v|e] st1] sub]; [|done].
  unfold store_of in Hg. simpl in Hg. destruct (Hg arr) as [ext Hext].
  specialize (IH (S k) st1).
  destruct (forEach f arr (S k) n st1) as [[c2 st2] tr2].
  apply IH.
  - rewrite Hext, length_app. lia.
  - rewrite Hext, drop_app_le, take_app_le; [done| |lia].
    rewrite length_drop. lia.
Qed.

(** X6.  With room for one listener call, a dispatch whose reducer returns and
    whose registered listeners are functions with calm bodies returns. *)
Lemma dispatch_returns depth a st :
  is_normal (reducer st (state st) a) →
  Forall callable (registered st) →
  (∀ f, calm (code f)) →
  completion_of (dispatch code (S depth) a st) = Normal VUndefined.
Proof.
  intros Hr Hall Hcode. simpl. unfold dispatch_body.
  destruct (reducer st (state st) a) as [s'|e]; [|done].
  set (st1 := mkStore (reducer st) s' (listeners st) (heap st)).
  pose proof (forEach_calm (call code (Some (dispatch code depth)))
    (listeners st) (length (registered st1))) as Hfe.
  specialize (Hfe) with (k := 0) (st := st1).
  cbn [listeners] in *.
  destruct (forEach _ _ _ _ _) as [[c2 st2] tr2].
  unfold completion_of in *. cbn [fst] in *.
  destruct c2; [done|]. exfalso. apply Hfe; [|done|].
  - intros [f|v] st0 Hc; [|done]. by apply exec_calm.
  - change (array st1 (listeners st)) with (registered st).
    change (registered st1) with (registered st).
    by rewrite drop_0, firstn_all.
Qed.

(** ** A listener without registration stays out

    As long as no code subscribes [l] again, a store in which [l] is not
    registered never calls it. *)
Section Absent.
Variable l : listener.
Hypothesis code_never : ∀ f, never_subscribes l (code f).

Lemma keeps_out_refl st st' :
  heap st' = heap st → listeners st' = listeners st → keeps_out l st st' [].
Proof.
  intros Hh Hl Hreg. unfold registered, array in *. rewrite Hh, Hl.
  split_and!; [done..|]. apply not_elem_of_nil.
Qed.

Lemma keeps_out_seq st st1 st2 tr1 tr2 :
  keeps_out l st st1 tr1 → keeps_out l st1 st2 tr2 →
  keeps_out l st st2 (tr1 ++ tr2).
Proof.
  intros H1 H2 Hreg.
  destruct (H1 Hreg) as (Hf1 & Hr1 & Hc1).
  destruct (H2 Hr1) as (Hf2 & Hr2 & Hc2).
  split_and!; [by auto|done|].
  unfold all_calls in *. rewrite bind_app, elem_of_app. tauto.
Qed.

Lemma keeps_out_subscribe l' st :
  l' ≠ l → keeps_out l st (subscribe l' st).2 [].
Proof.
  intros Hne Hreg.
  assert (∀ r, l ∉ array st r → l ∉ array (subscribe l' st).2 r) as Hf.
  { intros r. unfold array, subscribe. cbn [snd heap].
    destruct (decide (listeners st = r)) as [<-|Hr].
    - rewrite list_lookup_alter_eq.
      destruct (heap st !! listeners st); simpl; [|done].
      rewrite elem_of_app, list_elem_of_singleton. intuition congruence.
    - by rewrite list_lookup_alter_ne. }
  split_and!; [done| |apply not_elem_of_nil].
  by apply (Hf (listeners st)).
Qed.

Lemma keeps_out_unsubscribe h st : keeps_out l st (unsubscribe h st) [].
Proof.
  destruct h as [l0]. intros Hreg.
  assert (∀ r, l ∉ array st r → l ∉ array (unsubscribe (Handle l0) st) r) as Hf.
  { intros r Hr. unfold array, unsubscribe in *. cbn [heap].
    destruct (heap st !! r) as [arr|] eqn:E.
    - by rewrite (lookup_app_l_Some _ _ _ _ E).
    - apply lookup_ge_None in E.
      destruct (decide (r = length (heap st))) as [->|Hr'].
      + rewrite lookup_app_r, Nat.sub_diag by done. simpl.
        rewrite list_elem_of_filter. tauto.
      + rewrite lookup_ge_None_2; [apply not_elem_of_nil|].
        rewrite length_app. simpl. lia. }
  split_and!; [done| |apply not_elem_of_nil].
  rewrite registered_unsubscribe, list_elem_of_filter. tauto.
Qed.

Lemma exec_keeps disp p :
  (∀ a, relates (keeps_out l) (disp a)) →
  never_subscribes l p →
  relates (keeps_out l) (exec disp p).
Proof.
  intros Hdisp.
  induction p as [v|e|k IH|l' k IH|h k IH|a k IH]; intros Hp st; simpl in *.
  - by apply keeps_out_refl.
  - by apply keeps_out_refl.
  - by apply IH.
  - destruct Hp as [Hne Hp].
    apply (keeps_out_seq _ _ _ [] _ (keeps_out_subscribe l' st Hne)).
    by apply IH.
  - apply (keeps_out_seq _ _ _ [] _ (keeps_out_unsubscribe h st)).
    by apply IH.
  - specialize (Hdisp a st).
    destruct (disp a st) as [[c1 st1] tr1].
    specialize (IH c1 (Hp c1) st1).
    destruct (exec disp (k c1) st1) as [[c2 st2] tr2].
    by eapply keeps_out_seq.
Qed.

Lemma forEach_keeps f arr n :
  (∀ l', l' ≠ l → relates (keeps_out l) (f l')) →
  ∀ k st, l ∉ array st arr →
    keeps_out l st (store_of (forEach f arr k n st))
      (trace_of (forEach f arr k n st)).
Proof.
  intros Hf.
  induction n as [|n IH]; intros k st Harr; simpl.
  - by apply keeps_out_refl.
  - destruct (array st arr !! k) as [l'|] eqn:El; [|by apply IH].
    assert (l' ≠ l) as Hne.
    { intros ->. apply Harr. by eapply list_elem_of_lookup_2. }
    specialize (Hf l' Hne st).
    destruct (f l' st) as [[c1 st1] sub].
    unfold store_of, trace_of in Hf. simpl in Hf.
    assert (keeps_out l st st1 [Invoked l' sub]) as Hstep.
    { intros Hreg. destruct (Hf Hreg) as (Hfr & Hr & Hc).
      split_and!; [done..|].
      unfold all_calls in *. simpl. rewrite app_nil_r.
      by rewrite not_elem_of_cons. }
    destruct c1 as [v|e]; [|done].
    intros Hreg. destruct (Hstep Hreg) as (Hfr & Hr & Hc).
    specialize (IH (S k) st1 (Hfr _ Harr)).
    destruct (forEach f arr (S k) n st1) as [[c2 st2] tr2].
    by apply (keeps_out_seq _ _ _ [Invoked l' sub] tr2 Hstep IH).
Qed.

Lemma dispatch_keeps depth a : relates (keeps_out l) (dispatch code depth a).
Proof using code_never.
  revert a. apply (below_dispatch (λ disp, ∀ a, relates (keeps_out l) (disp a))).
  intros inner Hin a st. unfold dispatch_body.
  destruct (reducer st (state st) a) as [s'|e]; simpl.
  - set (st1 := mkStore (reducer st) s' (listeners st) (heap st)).
    intros Hreg.
    pose proof (forEach_keeps (call code inner) (listeners st)
      (length (registered st1))) as Hfe.
    specialize (Hfe) with (k := 0) (st := st1).
    destruct (forEach _ _ _ _ _) as [[c2 st2] tr2].
    apply Hfe; [|done..].
    intros [f|v] _ st0; simpl; [|by apply keeps_out_refl].
    destruct inner as [disp|]; [|by apply keeps_out_refl].
    by apply exec_keeps.
  - intros Hreg. split_and!; [done..|].
    unfold all_calls. simpl. apply not_elem_of_nil.
Qed.

Lemma run_keeps depth p :
  never_subscribes l p → relates (keeps_out l) (run code depth p).
Proof using code_never.
  intros Hp. apply exec_keeps; [|done]. apply dispatch_keeps.
Qed.
End Absent.

(** ** The store: what each operation guarantees *)

(** C1.  After any client code has run against a store, [getState()]
    returns the left fold of the reducer over the state the run started
    from and the actions the code handed to [dispatch], in the order of
    the calls; the calls that listeners made while they were notified
    count among them, each in its place.  A call on which the reducer
    throws is a step that keeps the state ([next]). *)
Theorem getState_is_fold_of_passed depth p st :
  getState (store_of (run code depth p st))
  = foldl (next (reducer st)) (getState st)
      (passed (dispatch code depth) (during code depth) p st).
Proof.
  rewrite <- run_passed. apply (run_folds depth p st).
Qed.


(** C3.  When the reducer throws on the current state and the action,
    [dispatch] throws the same exception to its caller, the store is
    what it was (so [getState()] is unchanged), and no listener is
    called. *)
Theorem failed_reducer_leaves_store depth a st e :
  reducer st (state st) a = Throw e →
  let r := dispatch code depth a st in
  completion_of r = Throw e ∧
  store_of r = st ∧
  getState (store_of r) = getState st ∧
  all_calls (trace_of r) = [].
Proof.
  intros He. destruct depth; simpl; unfold dispatch_body; by rewrite He.
Qed.



(** C7, as the code has it.  Once a handle was called, calling it again,
    any number of times and after any other client code that has not
    subscribed its listener again, throws nothing and leaves the
    registered listeners (and the state) as they were before those
    calls. *)
Theorem repeated_unsubscribe_is_noop l st depth p n :
  (∀ f, never_subscribes l (code f)) →
  never_subscribes l p →
  let later := store_of (run code depth p (unsubscribe (Handle l) st)) in
  let again := Nat.iter n (unsubscribe (Handle l)) later in
  run code depth (Nat.iter n (CallHandle (Handle l)) (Return VUndefined)) later
  = (Normal VUndefined, again, []) ∧
  registered again = registered later ∧
  getState again = getState later.
Proof.
  intros Hcode Hp later again. split.
  - unfold again, run. generalize later. clear.
    induction n as [|n IH]; intros st; [done|].
    rewrite (Nat.iter_succ_r n (unsubscribe (Handle l))).
    rewrite (Nat.iter_succ n (CallHandle (Handle l))). simpl. apply IH.
  - destruct (run_keeps l Hcode depth p Hp (unsubscribe (Handle l) st))
      as (_ & Hreg & _).
    { rewrite registered_unsubscribe, list_elem_of_filter. by intros [? _]. }
    fold later in Hreg. unfold again.
    induction n as [|n [IH1 IH2]]; [done|].
    rewrite Nat.iter_succ. split; [|exact IH2].
    rewrite registered_unsubscribe, IH1. by apply filter_absent.
Qed.


(** C10.  A [dispatch] that returns, returns [undefined], not the
    action. *)
Theorem dispatch_returns_undefined depth a st v :
  completion_of (dispatch code depth a st) = Normal v →
  v = VUndefined.
Proof.
  destruct depth; simpl; unfold dispatch_body;
    (destruct (reducer st (state st) a); [|done]);
    destruct (forEach _ _ _ _ _) as [[[?|?] ?] ?];
    unfold completion_of; simpl; intros [= <-]; done.
Qed.

(** X7.  Calling a handle whose listener is not registered changes nothing
    that can be observed, and the listener stays unregistered through any
    run that does not subscribe it: a later call of a used handle is without
    effect until then. *)
Lemma later_call_is_noop l st depth p :
  (∀ f, never_subscribes l (code f)) →
  never_subscribes l p →
  let later := store_of (run code depth p (unsubscribe (Handle l) st)) in
  registered (unsubscribe (Handle l) later) = registered later ∧
  getState (unsubscribe (Handle l) later) = getState later.
Proof.
  intros Hcode Hp later. split; [|done].
  destruct (run_keeps l Hcode depth p Hp (unsubscribe (Handle l) st))
    as (_ & Hreg & _).
  { rewrite registered_unsubscribe, list_elem_of_filter. by intros [? _]. }
  rewrite registered_unsubscribe. by apply filter_absent.
Qed.

(** X8.  A handle that was used still filters: if its listener was subscribed
    again in the meantime, calling the old handle removes the new
    registration. *)
Lemma stale_handle_removes_new_registration l st :
  let h1 := (subscribe l st).1 in
  let st2 := unsubscribe h1 (subscribe l st).2 in
  let st3 := (subscribe l st2).2 in
  (l ∈ registered st3) ∧ (l ∉ registered (unsubscribe h1 st3)).
Proof.
  intros h1 st2 st3. change h1 with (Handle l) in *. split.
  - unfold st3. rewrite registered_subscribe by apply wf_unsubscribe.
    rewrite elem_of_app, list_elem_of_singleton. by right.
  - rewrite registered_unsubscribe, list_elem_of_filter. by intros [? _].
Qed.

End StoreProperties.

(** * Properties of the app reducers *)

Lemma todos_default state action :
  type action ∉ todos_cases → todos state action = Normal (default [] state).
Proof.
  unfold todos_cases. rewrite !not_elem_of_cons. intros (?&?&?&_).
  unfold todos. by repeat case_decide.
Qed.

Lemma goals_default state action :
  type action ∉ goals_cases → goals state action = Normal (default [] state).
Proof.
  unfold goals_cases. rewrite !not_elem_of_cons. intros (?&?&_).
  unfold goals. by repeat case_decide.
Qed.

(** C5.  On a composite state, [app] returns the object whose [todos] is
    what [todos] returns on the state's [todos] and the action, and whose
    [goals] is what [goals] returns on the state's [goals] and the same
    action: each slice reducer is applied once, to its own slice. *)
Theorem app_assembles_slices (s : app_state) (a : action) t g :
  todos (todos_slice s) a = Normal t →
  goals (goals_slice s) a = Normal g →
  app (Some s) a = Normal {| todos_slice := Some t; goals_slice := Some g |}.
Proof. intros Ht Hg. unfold app. simpl. by rewrite Ht, Hg. Qed.

(** When a slice reducer throws, so does [app], [todos] being asked
    first. *)
Lemma app_throws (s : app_state) (a : action) e :
  todos (todos_slice s) a = Throw e ∨
  (is_normal (todos (todos_slice s) a) ∧ goals (goals_slice s) a = Throw e) →
  app (Some s) a = Throw e.
Proof.
  unfold app. simpl. intros [->|[Ht ->]]; [done|].
  by destruct (todos (todos_slice s) a).
Qed.

(** X19.  The [todos] of the result does not depend on the [goals] of the state,
    nor the [goals] of the result on the [todos] of the state. *)
Lemma app_slices_isolated (s1 s2 r1 r2 : app_state) (a : action) :
  app (Some s1) a = Normal r1 → app (Some s2) a = Normal r2 →
  (todos_slice s1 = todos_slice s2 → todos_slice r1 = todos_slice r2) ∧
  (goals_slice s1 = goals_slice s2 → goals_slice r1 = goals_slice r2).
Proof.
  unfold app. simpl. intros H1 H2.
  destruct (todos (todos_slice s1) a) as [t1|] eqn:Et1; [|done].
  destruct (goals (goals_slice s1) a) as [g1|] eqn:Eg1; [|done].
  destruct (todos (todos_slice s2) a) as [t2|] eqn:Et2; [|done].
  destruct (goals (goals_slice s2) a) as [g2|] eqn:Eg2; [|done].
  simpl in *. injection H1 as <-. injection H2 as <-. simpl.
  split; intros E; rewrite E in *; congruence.
Qed.

(** C9, as the code has it.  On a composite state that has both slices,
    an action whose type is no [case] of either [switch] changes nothing:
    each slice reducer returns the array it was given and [app] returns a
    composite equal to the one it was given. *)
Theorem unknown_action_is_identity t g (a : action) :
  type a ∉ todos_cases →
  type a ∉ goals_cases →
  todos (Some t) a = Normal t ∧
  goals (Some g) a = Normal g ∧
  app_reducer (Some (mkApp (Some t) (Some g))) a
  = Normal (Some (mkApp (Some t) (Some g))).
Proof.
  intros Ht Hg. unfold app_reducer, app. simpl.
  rewrite (todos_default _ _ Ht), (goals_default _ _ Hg). done.
Qed.

(** * The properties at concrete inputs *)

(** The script of the source: the state after its eight dispatches. *)
Example demo_final_state :
  getState (store_of (run demo_code 1 demo_script (createStore app_reducer)))
  = Some {| todos_slice := Some [Some (mkTodo 0 "Walk the dog" true);
                                 Some (mkTodo 2 "Go to the gym" true)];
            goals_slice := Some [Some (mkGoal 1 "Lose 20 pounds")] |}.
Proof. vm_compute. reflexivity. Qed.

Example demo_dispatched :
  dispatched (trace_of (run demo_code 1 demo_script (createStore app_reducer)))
  = demo_actions.
Proof. vm_compute. reflexivity. Qed.

Example demo_fold :
  foldl (next app_reducer) None demo_actions
  = getState (store_of (run demo_code 1 demo_script (createStore app_reducer))).
Proof. vm_compute. reflexivity. Qed.

(** The pass over [churn_store]: [Fn 0] subscribes [Fn 2] and unsubscribes
    [Fn 1] while it is notified, yet the pass calls [Fn 1] and not
    [Fn 2]; the dispatch that [Fn 3] makes from inside sees the new
    list. *)
Example churn_trace :
  trace_of (dispatch churn_code 2 (plain "NOPE") churn_store)
  = [ Dispatched (plain "NOPE");
      Invoked (Fn 0) [];
      Invoked (Fn 1) [];
      Invoked (Fn 3)
        [ Dispatched (add_goal (mkGoal 7 "Nested"));
          Invoked (Fn 0) []; Invoked (Fn 3) []; Invoked (Fn 2) [] ] ].
Proof. vm_compute. reflexivity. Qed.

Example churn_registered_after :
  registered (store_of (dispatch churn_code 2 (plain "NOPE") churn_store))
  = [Fn 0; Fn 3; Fn 2; Fn 2].
Proof. vm_compute. reflexivity. Qed.

(** C1 for the script of the source: the actions handed over are the
    eight of lines 108-164, in that order. *)
Lemma getState_is_fold_witness :
  passed (dispatch demo_code 1) (during demo_code 1) demo_script
    (createStore app_reducer) = demo_actions ∧
  getState (store_of (run demo_code 1 demo_script (createStore app_reducer)))
  = foldl (next app_reducer) None demo_actions.
Proof.
  assert (passed (dispatch demo_code 1) (during demo_code 1) demo_script
            (createStore app_reducer) = demo_actions) as Hp
    by (vm_compute; reflexivity).
  split; [exact Hp|].
  rewrite <- Hp.
  exact (getState_is_fold_of_passed demo_code 1 demo_script
           (createStore app_reducer)).
Defined.

(** The dispatch that [Fn 3] makes while it is notified comes right after
    the dispatch that notified it. *)
Example churn_passed :
  passed (dispatch churn_code 2) (during churn_code 2)
    (two_dispatches (plain "NOPE") (plain "LATER")) churn_store
  = [plain "NOPE"; add_goal (mkGoal 7 "Nested"); plain "LATER"].
Proof. vm_compute. reflexivity. Qed.


(** C3 at the store with an [undefined] todo: [REMOVE_TODO] makes [todos]
    throw. *)
Lemma failed_reducer_witness :
  reducer holed_store (state holed_store) (with_id "REMOVE_TODO" 1)
  = Throw TypeError ∧
  let r := dispatch demo_code 1 (with_id "REMOVE_TODO" 1) holed_store in
  completion_of r = Throw TypeError ∧
  store_of r = holed_store ∧
  getState (store_of r) = getState holed_store ∧
  all_calls (trace_of r) = [].
Proof.
  split; [vm_compute; reflexivity|].
  apply (failed_reducer_leaves_store demo_code 1 (with_id "REMOVE_TODO" 1)
           holed_store TypeError).
  vm_compute. reflexivity.
Defined.


(** C5 at the first dispatch of the script on a composite state. *)
Lemma app_assembles_witness :
  app (Some (mkApp (Some []) (Some [])))
      (add_todo (mkTodo 0 "Walk the dog" false))
  = Normal {| todos_slice := Some [Some (mkTodo 0 "Walk the dog" false)];
              goals_slice := Some [] |}.
Proof.
  apply (app_assembles_slices (mkApp (Some []) (Some []))
           (add_todo (mkTodo 0 "Walk the dog" false))); reflexivity.
Defined.


(** C7 does not hold of the code: a handle is called, its listener is
    subscribed again, and the second call of the same handle is no no-op,
    it takes the new registration away. *)
Lemma second_call_removes_new_registration :
  let once := Subscribe (Fn 1) (λ h,
                CallHandle h (Subscribe (Fn 1) (λ _, Return VUndefined))) in
  let twice := Subscribe (Fn 1) (λ h,
                 CallHandle h (Subscribe (Fn 1) (λ _,
                   CallHandle h (Return VUndefined)))) in
  let r1 := run demo_code 1 once (createStore app_reducer) in
  let r2 := run demo_code 1 twice (createStore app_reducer) in
  completion_of r2 = Normal VUndefined ∧
  registered (store_of r1) = [Fn 1] ∧
  registered (store_of r2) = [] ∧
  registered (store_of r2) ≠ registered (store_of r1).
Proof. vm_compute. split_and!; [reflexivity..|discriminate]. Qed.

(** C7, as the code has it, for the handle of [Fn 1] at [churn_store]:
    three more calls after two dispatches. *)
Lemma repeated_unsubscribe_witness :
  let later := store_of (run churn_code 2 (two_dispatches (plain "NOPE") (plain "NOPE"))
                 (unsubscribe (Handle (Fn 1)) churn_store)) in
  let again := Nat.iter 3 (unsubscribe (Handle (Fn 1))) later in
  run churn_code 2 (Nat.iter 3 (CallHandle (Handle (Fn 1))) (Return VUndefined)) later
  = (Normal VUndefined, again, []) ∧
  registered again = registered later ∧
  getState again = getState later.
Proof.
  apply (repeated_unsubscribe_is_noop churn_code (Fn 1) churn_store 2
    (two_dispatches (plain "NOPE") (plain "NOPE")) 3).
  - intros [|[|[|[|f]]]]; simpl; try exact I.
    + split; [discriminate|]. intros _. exact I.
    + intros [[t [[|x g]|]]|]; simpl; try exact I.
      intros [v|e]; exact I.
  - simpl. intros [v|e]; simpl; [|exact I]. intros [v'|e']; exact I.
Defined.



(** C9 does not hold of the code: on [undefined], the state of a store
    before its first dispatch, an action no reducer knows does not give
    [undefined] back; the slice reducers and [app] put their defaults in its
    place. *)
Lemma identity_law_fails_on_undefined :
  (type (plain "NOPE") ∉ todos_cases) ∧
  (type (plain "NOPE") ∉ goals_cases) ∧
  todos None (plain "NOPE") = Normal [] ∧
  goals None (plain "NOPE") = Normal [] ∧
  app_reducer None (plain "NOPE")
  = Normal (Some {| todos_slice := Some []; goals_slice := Some [] |}) ∧
  app_reducer None (plain "NOPE") ≠ Normal None ∧
  getState (store_of (dispatch demo_code 1 (plain "NOPE") (createStore app_reducer)))
  ≠ getState (createStore app_reducer).
Proof.
  split_and!; try reflexivity; try discriminate.
  - apply (bool_decide_unpack _). vm_compute. exact I.
  - apply (bool_decide_unpack _). vm_compute. exact I.
Qed.

(** C9, as the code has it, at the state the script reaches. *)
Lemma unknown_action_witness :
  (type (plain "NOPE") ∉ todos_cases) ∧
  (type (plain "NOPE") ∉ goals_cases) ∧
  todos (Some [Some (mkTodo 0 "Walk the dog" true)]) (plain "NOPE")
  = Normal [Some (mkTodo 0 "Walk the dog" true)] ∧
  goals (Some [Some (mkGoal 1 "Lose 20 pounds")]) (plain "NOPE")
  = Normal [Some (mkGoal 1 "Lose 20 pounds")] ∧
  app_reducer
    (Some (mkApp (Some [Some (mkTodo 0 "Walk the dog" true)])
                 (Some [Some (mkGoal 1 "Lose 20 pounds")]))) (plain "NOPE")
  = Normal
      (Some (mkApp (Some [Some (mkTodo 0 "Walk the dog" true)])
                   (Some [Some (mkGoal 1 "Lose 20 pounds")]))).
Proof.
  assert (type (plain "NOPE") ∉ todos_cases) as Ht
    by (apply (bool_decide_unpack _); vm_compute; exact I).
  assert (type (plain "NOPE") ∉ goals_cases) as Hg
    by (apply (bool_decide_unpack _); vm_compute; exact I).
  split; [exact Ht|]. split; [exact Hg|].
  exact (unknown_action_is_identity [Some (mkTodo 0 "Walk the dog" true)]
           [Some (mkGoal 1 "Lose 20 pounds")] (plain "NOPE") Ht Hg).
Defined.

(** C10 at the first dispatch of the script. *)
Lemma dispatch_returns_witness :
  let st := (subscribe (Fn 0) (createStore app_reducer)).2 in
  let a := add_todo (mkTodo 0 "Walk the dog" false) in
  completion_of (dispatch demo_code 1 a st) = Normal VUndefined ∧
  @VUndefined app_state action = VUndefined.
Proof.
  split; [vm_compute; reflexivity|].
  apply (dispatch_returns_undefined demo_code 1
           (add_todo (mkTodo 0 "Walk the dog" false))
           (subscribe (Fn 0) (createStore app_reducer)).2 VUndefined).
  vm_compute. reflexivity.
Defined.

(** * More on the slice reducers *)

(** [filter] and [map] over an array of objects, with a callback that
    returns on every object. *)
Lemma filterM_objects {A} (P : A → Prop) `{!∀ x, Decision (P x)}
    (f : option A → completion bool) (xs : list A) :
  (∀ x, f (Some x) = Normal (bool_decide (P x))) →
  filterM f (objects xs) = Normal (objects (filter P xs)).
Proof.
  intros Hf. induction xs as [|x xs IH]; [done|].
  unfold objects in *. rewrite fmap_cons. simpl. rewrite Hf, IH. simpl.
  rewrite filter_cons. by case_bool_decide; case_decide.
Qed.

Lemma mapM_objects {A} (g : A → A) (f : option A → completion (option A))
    (xs : list A) :
  (∀ x, f (Some x) = Normal (Some (g x))) →
  mapM' f (objects xs) = Normal (objects (g <$> xs)).
Proof.
  intros Hf. induction xs as [|x xs IH]; [done|].
  unfold objects in *. rewrite !fmap_cons. simpl. by rewrite Hf, IH.
Qed.

(** The first [undefined] element ends the walk with the callback's
    exception. *)
Lemma filterM_undefined {A} (f : option A → completion bool) e l :
  (∀ x, is_normal (f (Some x))) → f None = Throw e → None ∈ l →
  filterM f l = Throw e.
Proof.
  intros Hs Hn. induction l as [|[x|] l IH]; intros Hin.
  - by apply elem_of_nil in Hin.
  - apply elem_of_cons in Hin as [|Hin]; [done|].
    simpl. specialize (Hs x). destruct (f (Some x)); [|done].
    simpl. by rewrite IH.
  - simpl. by rewrite Hn.
Qed.

Lemma mapM_undefined {A B} (f : option A → completion B) e l :
  (∀ x, is_normal (f (Some x))) → f None = Throw e → None ∈ l →
  mapM' f l = Throw e.
Proof.
  intros Hs Hn. induction l as [|[x|] l IH]; intros Hin.
  - by apply elem_of_nil in Hin.
  - apply elem_of_cons in Hin as [|Hin]; [done|].
    simpl. specialize (Hs x). destruct (f (Some x)); [|done].
    simpl. by rewrite IH.
  - simpl. by rewrite Hn.
Qed.

Lemma todos_remove ts (a : action) :
  type a = "REMOVE_TODO" →
  todos (Some (objects ts)) a
  = Normal (objects (filter (λ t, todo_id t ≠ id a) ts)).
Proof.
  intros Ht. unfold todos. rewrite Ht. simpl.
  by apply (filterM_objects (λ t, todo_id t ≠ id a)).
Qed.

Lemma todos_toggle ts (a : action) :
  type a = "TOGGLE_TODO" →
  todos (Some (objects ts)) a
  = Normal (objects
      ((λ t, if decide (todo_id t = id a) then toggled t else t) <$> ts)).
Proof.
  intros Ht. unfold todos. rewrite Ht. simpl.
  apply mapM_objects. intros t. simpl. unfold strict_ne.
  by case_bool_decide; case_decide.
Qed.

Lemma goals_remove gs (a : action) :
  type a = "REMOVE_GOAL" →
  goals (Some (objects gs)) a
  = Normal (objects (filter (λ g, goal_id g ≠ id a) gs)).
Proof.
  intros Ht. unfold goals. rewrite Ht. simpl.
  by apply (filterM_objects (λ g, goal_id g ≠ id a)).
Qed.

Lemma toggled_toggled t : toggled (toggled t) = t.
Proof. destruct t as [i n c]. unfold toggled. simpl. by rewrite negb_involutive. Qed.

Lemma objects_snoc {A} (xs : list A) x : objects xs ++ [Some x] = objects (xs ++ [x]).
Proof. unfold objects. by rewrite fmap_app. Qed.

Lemma todos_objects ts (a : action) :
  carries_payload a → ∃ ts', todos (Some (objects ts)) a = Normal (objects ts').
Proof.
  intros [Hp _].
  destruct (decide (type a = "ADD_TODO")) as [Ha|Ha].
  { destruct (Hp Ha) as [t Ht]. exists (ts ++ [t]).
    unfold todos. rewrite Ha, Ht. simpl. by rewrite objects_snoc. }
  destruct (decide (type a = "REMOVE_TODO")) as [Hr|Hr];
    [eexists; by apply todos_remove|].
  destruct (decide (type a = "TOGGLE_TODO")) as [Hg|Hg];
    [eexists; by apply todos_toggle|].
  exists ts. unfold todos. by repeat case_decide.
Qed.

Lemma goals_objects gs (a : action) :
  carries_payload a → ∃ gs', goals (Some (objects gs)) a = Normal (objects gs').
Proof.
  intros [_ Hp].
  destruct (decide (type a = "ADD_GOAL")) as [Ha|Ha].
  { destruct (Hp Ha) as [g Hg]. exists (gs ++ [g]).
    unfold goals. rewrite Ha, Hg. simpl. by rewrite objects_snoc. }
  destruct (decide (type a = "REMOVE_GOAL")) as [Hr|Hr];
    [eexists; by apply goals_remove|].
  exists gs. unfold goals. by repeat case_decide.
Qed.

(** X10.  On an array of todo objects, [REMOVE_TODO] returns, in their
    order, the todos whose [id] is not [action.id]: every todo with that
    [id] is gone and no other is. *)
Theorem remove_todo_filters_by_id ts (a : action) :
  type a = "REMOVE_TODO" →
  todos (Some (objects ts)) a
  = Normal (objects (filter (λ t, todo_id t ≠ id a) ts)).
Proof.
  intros Ht. unfold todos. rewrite Ht. simpl.
  by apply (filterM_objects (λ t, todo_id t ≠ id a)).
Qed.

(** X11.  Adding a todo whose [id] no todo of the array has, then
    removing by that [id], gives the array back. *)
Theorem add_then_remove_todo ts t (a r : action) :
  type a = "ADD_TODO" → todo a = Some t →
  type r = "REMOVE_TODO" → id r = todo_id t →
  Forall (λ u, todo_id u ≠ todo_id t) ts →
  (todos (Some (objects ts)) a ≫= λ l, todos (Some l) r) = Normal (objects ts).
Proof.
  intros Ha Ht Hr Hi Hfresh.
  assert (todos (Some (objects ts)) a = Normal (objects (ts ++ [t]))) as ->.
  { unfold todos. rewrite Ha, Ht. simpl. by rewrite objects_snoc. }
  simpl. rewrite (todos_remove _ _ Hr), Hi. do 2 f_equal.
  rewrite filter_app, filter_cons_False, filter_nil, app_nil_r by (intros H; by apply H).
  clear -Hfresh. induction Hfresh as [|u ts Hu _ IH]; [done|].
  rewrite filter_cons_True by congruence. by rewrite IH.
Qed.

(** X12.  On an array of todo objects, the same [TOGGLE_TODO] action
    applied twice gives the array back. *)
Theorem toggle_twice_is_identity ts (a : action) :
  type a = "TOGGLE_TODO" →
  (todos (Some (objects ts)) a ≫= λ l, todos (Some l) a) = Normal (objects ts).
Proof.
  intros Ha. rewrite (todos_toggle _ _ Ha). simpl. rewrite (todos_toggle _ _ Ha).
  do 2 f_equal. rewrite <- list_fmap_compose.
  rewrite <- (list_fmap_id ts) at 2. apply list_fmap_ext. intros _ t _. simpl.
  destruct (decide (todo_id t = id a)) as [E|E]; simpl.
  - rewrite decide_True by done. apply toggled_toggled.
  - by rewrite decide_False.
Qed.

(** X13.  [TOGGLE_TODO] keeps the number, the order, the [id]s and the
    [name]s of the todos; it inverts [complete] on the todos whose [id] is
    [action.id] and leaves the others as they are. *)
Theorem toggle_keeps_ids_and_names ts (a : action) :
  type a = "TOGGLE_TODO" →
  ∃ ts', todos (Some (objects ts)) a = Normal (objects ts') ∧
    todo_id <$> ts' = todo_id <$> ts ∧
    todo_name <$> ts' = todo_name <$> ts ∧
    Forall2 (λ t t', if decide (todo_id t = id a)
                     then todo_complete t' = negb (todo_complete t)
                     else t' = t) ts ts'.
Proof.
  intros Ha. eexists. split; [by apply todos_toggle|].
  split_and!.
  - rewrite <- list_fmap_compose. apply list_fmap_ext. intros _ t _. simpl.
    by case_decide.
  - rewrite <- list_fmap_compose. apply list_fmap_ext. intros _ t _. simpl.
    by case_decide.
  - induction ts as [|t ts IH]; [constructor|].
    rewrite fmap_cons. constructor; [|done]. by case_decide.
Qed.

(** X14.  When the todo array holds an [undefined] element, [REMOVE_TODO]
    and [TOGGLE_TODO] throw a [TypeError], and so does [app]. *)
Theorem undefined_todo_breaks_remove_and_toggle l g (a : action) :
  None ∈ l →
  type a = "REMOVE_TODO" ∨ type a = "TOGGLE_TODO" →
  todos (Some l) a = Throw TypeError ∧
  app (Some (mkApp (Some l) g)) a = Throw TypeError.
Proof.
  intros Hin Ht.
  assert (todos (Some l) a = Throw TypeError) as Hthrow.
  { unfold todos. destruct Ht as [Ht|Ht]; rewrite Ht; simpl.
    - by apply filterM_undefined.
    - by apply mapM_undefined. }
  split; [done|]. unfold app. simpl. by rewrite Hthrow.
Qed.

(** X15.  An action without [id] that is not an [ADD_] action changes
    nothing in a composite state all of whose objects have an [id]:
    [REMOVE_] and [TOGGLE_] compare every [id] with [undefined].  (An
    object without [id] is matched by such an action, see
    [action_without_id_matches_missing_id].) *)
Theorem action_without_id_changes_nothing ts gs (a : action) :
  id a = None →
  type a ≠ "ADD_TODO" → type a ≠ "ADD_GOAL" →
  Forall (λ t, is_Some (todo_id t)) ts →
  Forall (λ g, is_Some (goal_id g)) gs →
  app (Some (full_state ts gs)) a = Normal (full_state ts gs).
Proof.
  intros Hi Ht Hg Hts Hgs.
  assert (todos (Some (objects ts)) a = Normal (objects ts)) as Htodos.
  { destruct (decide (type a = "REMOVE_TODO")) as [Hr|Hr].
    { rewrite (todos_remove _ _ Hr), Hi. do 2 f_equal.
      induction Hts as [|t ts [i Hti] _ IH]; [done|].
      rewrite filter_cons_True by (by rewrite Hti). by rewrite IH. }
    destruct (decide (type a = "TOGGLE_TODO")) as [Hx|Hx].
    { rewrite (todos_toggle _ _ Hx), Hi. do 2 f_equal.
      rewrite <- (list_fmap_id ts) at 2. apply Forall_fmap_ext_1.
      eapply Forall_impl; [exact Hts|]. intros t [i Hti]. simpl.
      by rewrite decide_False by (by rewrite Hti). }
    unfold todos. by repeat case_decide. }
  assert (goals (Some (objects gs)) a = Normal (objects gs)) as Hgoals.
  { destruct (decide (type a = "REMOVE_GOAL")) as [Hr|Hr].
    { rewrite (goals_remove _ _ Hr), Hi. do 2 f_equal.
      induction Hgs as [|g gs [i Hgi] _ IH]; [done|].
      rewrite filter_cons_True by (by rewrite Hgi). by rewrite IH. }
    unfold goals. by repeat case_decide. }
  unfold app, full_state. simpl. by rewrite Htodos, Hgoals.
Qed.

(** X16.  Each slice answers to its own actions only: when [app]
    returns, an action that is no [case] of [todos] leaves the todo array
    as it was, and an action that is no [case] of [goals] leaves the goal
    array as it was (an absent array becoming the empty one). *)
Theorem slices_react_to_own_actions (s r : app_state) (a : action) :
  app (Some s) a = Normal r →
  (type a ∉ todos_cases → todos_slice r = Some (default [] (todos_slice s))) ∧
  (type a ∉ goals_cases → goals_slice r = Some (default [] (goals_slice s))).
Proof.
  unfold app. simpl. intros Happ.
  destruct (todos (todos_slice s) a) as [t|] eqn:Et; [|done].
  destruct (goals (goals_slice s) a) as [g|] eqn:Eg; [|done].
  simpl in Happ. injection Happ as <-. simpl. split; intros Hn.
  - rewrite (todos_default _ _ Hn) in Et. congruence.
  - rewrite (goals_default _ _ Hn) in Eg. congruence.
Qed.

Lemma app_keeps_objects_aux ts gs (a : action) :
  carries_payload a →
  ∃ ts' gs', app (Some (full_state ts gs)) a = Normal (full_state ts' gs').
Proof.
  intros Hp.
  destruct (todos_objects ts a Hp) as [ts' Ht].
  destruct (goals_objects gs a Hp) as [gs' Hg].
  exists ts', gs'. unfold app, full_state. simpl. by rewrite Ht, Hg.
Qed.

(** X17.  Composite states of objects are kept: on such a state, an
    action that carries its payload makes [app] return, and the result is
    again a composite state of objects. *)
Theorem app_keeps_objects ts gs (a : action) :
  carries_payload a →
  ∃ ts' gs', app (Some (full_state ts gs)) a = Normal (full_state ts' gs').
Proof.
  intros Hp.
  destruct (todos_objects ts a Hp) as [ts' Ht].
  destruct (goals_objects gs a Hp) as [gs' Hg].
  exists ts', gs'. unfold app, full_state. simpl. by rewrite Ht, Hg.
Qed.

(** [undefined] and [{}] are read as the composite state with two empty
    arrays: [app] returns the same on all three. *)
Lemma app_undefined_is_empty (a : action) :
  app None a = app (Some (full_state [] [])) a ∧
  app (Some (mkApp None None)) a = app (Some (full_state [] [])) a.
Proof. done. Qed.

(** X20.  Adding a goal whose [id] no goal of the array has, then
    removing by that [id], gives the array back. *)
Theorem add_then_remove_goal gs g (a r : action) :
  type a = "ADD_GOAL" → goal a = Some g →
  type r = "REMOVE_GOAL" → id r = goal_id g →
  Forall (λ u, goal_id u ≠ goal_id g) gs →
  (goals (Some (objects gs)) a ≫= λ l, goals (Some l) r) = Normal (objects gs).
Proof.
  intros Ha Hg Hr Hi Hfresh.
  assert (goals (Some (objects gs)) a = Normal (objects (gs ++ [g]))) as ->.
  { unfold goals. rewrite Ha, Hg. simpl. by rewrite objects_snoc. }
  simpl. rewrite (goals_remove _ _ Hr), Hi. do 2 f_equal.
  rewrite filter_app, filter_cons_False, filter_nil, app_nil_r by (intros H; by apply H).
  clear -Hfresh. induction Hfresh as [|u gs Hu _ IH]; [done|].
  rewrite filter_cons_True by congruence. by rewrite IH.
Qed.

(** * More on the store *)

Section StoreFurther.
Context {State Action : Type}.
Variable code : nat → prog State Action.

Implicit Types (st : store State Action) (a : Action) (l : listener)
  (p : prog State Action).

Lemma dispatch_folds depth a : relates folds (dispatch code depth a).
Proof.
  apply dispatch_rel; clear.
  - by intros st.
  - apply folds_seq.
  - by intros l st.
  - by intros [l] st.
  - intros st a s' Hr. split; [done|]. simpl. unfold next. by rewrite Hr.
  - intros st a e Hr. split; [done|]. simpl. unfold next. by rewrite Hr.
  - intros st st' l inner [Hr Hs]. split; [done|].
    unfold dispatched in *. simpl. by rewrite app_nil_r.
Qed.

(** X1.  Only [dispatch] changes the state: client code that subscribes,
    unsubscribes and reads, but never dispatches, leaves [getState()] as
    it was and causes no listener call. *)
Theorem only_dispatch_changes_state depth p st :
  never_dispatches p →
  getState (store_of (run code depth p st)) = getState st ∧
  trace_of (run code depth p st) = [].
Proof.
  intros Hp. pose proof (exec_silent (dispatch code depth) p st Hp) as Htr.
  split; [|done].
  destruct (run_folds code depth p st) as [_ Hs].
  unfold run in *. by rewrite Htr in Hs.
Qed.

(** X2.  A subscribed listener goes to the end of the list: the next
    dispatch that returns has called the listeners registered before, in
    their order, and then the new one, also when it was registered
    already. *)
Theorem new_listener_is_called_last l st depth a :
  wf st →
  is_normal (completion_of (dispatch code depth a (subscribe l st).2)) →
  pass_calls (trace_of (dispatch code depth a (subscribe l st).2))
  = registered st ++ [l].
Proof.
  intros Hwf Hn. apply dispatch_pass in Hn as [-> _].
  by apply registered_subscribe.
Qed.

(** X3.  After a handle was called, a dispatch that returns has called
    the listeners registered before that are not the handle's listener,
    in their order. *)
Theorem unsubscribed_listener_is_skipped l st depth a :
  is_normal (completion_of (dispatch code depth a (unsubscribe (Handle l) st))) →
  pass_calls (trace_of (dispatch code depth a (unsubscribe (Handle l) st)))
  = filter (λ l', l' ≠ l) (registered st).
Proof.
  intros Hn. apply dispatch_pass in Hn as [-> _].
  apply registered_unsubscribe.
Qed.

(** X4.  The new state is assigned before the listeners run and is not
    taken back: when the reducer returns [s'] and no listener dispatches,
    [getState()] is [s'] after the dispatch whether it returned or a
    listener threw, and the listeners called are a beginning of the
    registered list. *)
Theorem listener_failure_keeps_new_state depth a st s' :
  reducer st (state st) a = Normal s' →
  (∀ f, never_dispatches (code f)) →
  getState (store_of (dispatch code depth a st)) = s' ∧
  pass_calls (trace_of (dispatch code depth a st)) `prefix_of` registered st.
Proof.
  intros Hr Hcode. split; [|apply dispatch_pass].
  destruct (dispatch_folds depth a st) as [_ Hs].
  rewrite (dispatch_silent code depth a st Hcode) in Hs.
  simpl in Hs. unfold next in Hs. by rewrite Hr in Hs.
Qed.

(** X5.  Nothing stops a listener from dispatching while it is notified:
    with a reducer that always returns, a first listener that dispatches
    whenever it is called exhausts the call stack, however deep it is,
    and the dispatch throws [RangeError]. *)
Theorem redispatching_listener_overflows f b k depth a st rest :
  code f = Dispatch_ b k →
  (∀ s x, is_normal (reducer st s x)) →
  registered st = Fn f :: rest →
  completion_of (dispatch code depth a st) = Throw RangeError.
Proof.
  intros Hf. revert a st rest.
  induction depth as [|d IH]; intros a st rest Htot Hreg;
    rewrite dispatch_unfold; unfold dispatch_body;
    specialize (Htot (state st) a) as Hn;
    (destruct (reducer st (state st) a) as [s'|e]; [|done]);
    set (st1 := mkStore (reducer st) s' (listeners st) (heap st));
    change (registered st1) with (registered st);
    assert (array st1 (listeners st1) !! 0 = Some (Fn f)) as Hhd
      by (change (array st1 (listeners st1)) with (registered st); by rewrite Hreg);
    rewrite Hreg; simpl; simpl in Hhd; rewrite Hhd; simpl.
  - done.
  - rewrite Hf. simpl.
    specialize (IH b st1 rest Htot Hreg).
    destruct (dispatch code d b st1) as [[c1 st2] tr1].
    unfold completion_of in IH. simpl in IH. subst c1. done.
Qed.

End StoreFurther.

(** * The store with the app reducers *)

Lemma next_app_objects (s : option app_state) (a : action) :
  carries_payload a →
  s = None ∨ (∃ ts gs, s = Some (full_state ts gs)) →
  ∃ ts gs, next app_reducer s a = Some (full_state ts gs).
Proof.
  intros Hp Hs.
  assert (∃ ts gs, app s a = app (Some (full_state ts gs)) a) as (ts & gs & Heq).
  { destruct Hs as [->|(ts & gs & ->)]; [exists [], []|exists ts, gs]; done. }
  destruct (app_keeps_objects_aux ts gs a Hp) as (ts' & gs' & Happ).
  exists ts', gs'. unfold next, app_reducer. by rewrite Heq, Happ.
Qed.

(** X18.  A store whose reducer is [app], whose state is [undefined] or
    a composite of objects, and whose listeners, whichever are registered
    and whatever else they do, do not dispatch: after a non-empty sequence
    of actions that carry their payloads was dispatched, it holds a
    composite state with two arrays of objects (so that no later [REMOVE_]
    or [TOGGLE_] action can make the reducer throw). *)
Theorem payload_actions_keep_store_state (code : nat → prog app_state action)
    depth (acts : list action) (st : store app_state action) :
  reducer st = app_reducer →
  getState st = None ∨ (∃ ts gs, getState st = Some (full_state ts gs)) →
  (∀ f, never_dispatches (code f)) →
  Forall carries_payload acts →
  acts ≠ [] →
  ∃ ts gs,
    getState (store_of (run code depth (dispatch_each acts) st))
    = Some (full_state ts gs).
Proof.
  intros Hred Hst Hcode Hacts Hne.
  destruct (run_folds code depth (dispatch_each acts) st) as [_ Hs].
  rewrite dispatch_each_dispatched in Hs by done.
  unfold getState in *. rewrite Hs, Hred. clear Hs.
  revert Hst Hne. generalize (state st).
  induction Hacts as [|a acts Ha _ IH]; intros s Hs Hne; [done|].
  simpl. destruct (next_app_objects s a Ha Hs) as (ts & gs & Hnext).
  destruct acts as [|a' acts]; [by exists ts, gs|].
  apply IH; [right; by exists ts, gs|done].
Qed.

(** * The further properties at concrete inputs *)

(** The pass over [faulty_store] stops at the listener that throws; the
    state is the new one all the same. *)
Example faulty_dispatch :
  let r := dispatch faulty_code 1 (plain "NOPE") faulty_store in
  completion_of r = Throw (Error "listener failed") ∧
  pass_calls (trace_of r) = [Fn 0] ∧
  getState (store_of r) = Some (full_state [] []).
Proof. vm_compute. split_and!; reflexivity. Qed.

(** X1 for code that subscribes a listener and unsubscribes it again. *)
Lemma only_dispatch_witness :
  let p := Subscribe (Fn 1) (λ h, GetState (λ _, CallHandle h (Return VUndefined))) in
  getState (store_of (run demo_code 1 p holed_store)) = getState holed_store ∧
  trace_of (run demo_code 1 p holed_store) = [].
Proof.
  apply (only_dispatch_changes_state demo_code 1
    (Subscribe (Fn 1) (λ h, GetState (λ _, CallHandle h (Return VUndefined))))
    holed_store).
  simpl. intros _ _. exact I.
Defined.

(** X2 for a listener subscribed a second time: it is called twice. *)
Lemma new_listener_witness :
  let st := (subscribe (Fn 0) (createStore app_reducer)).2 in
  pass_calls (trace_of (dispatch demo_code 1 (plain "NOPE") (subscribe (Fn 0) st).2))
  = registered st ++ [Fn 0].
Proof.
  apply (new_listener_is_called_last demo_code (Fn 0)
    (subscribe (Fn 0) (createStore app_reducer)).2 1 (plain "NOPE")).
  - unfold wf. simpl. lia.
  - vm_compute. exact I.
Defined.

(** X3 at [churn_store], for the handle of [Fn 1]. *)
Lemma unsubscribed_listener_witness :
  pass_calls (trace_of
    (dispatch demo_code 1 (plain "NOPE") (unsubscribe (Handle (Fn 1)) churn_store)))
  = filter (λ l', l' ≠ Fn 1) (registered churn_store).
Proof.
  apply (unsubscribed_listener_is_skipped demo_code (Fn 1) churn_store 1
    (plain "NOPE")).
  vm_compute. exact I.
Defined.

(** X4 at [faulty_store]. *)
Lemma listener_failure_witness :
  getState (store_of (dispatch faulty_code 1 (plain "NOPE") faulty_store))
  = Some (full_state [] []) ∧
  pass_calls (trace_of (dispatch faulty_code 1 (plain "NOPE") faulty_store))
    `prefix_of` registered faulty_store.
Proof.
  apply (listener_failure_keeps_new_state faulty_code 1 (plain "NOPE")
    faulty_store (Some (full_state [] []))).
  - vm_compute. reflexivity.
  - intros [|f]; exact I.
Defined.

(** X5 at [looping_store], with room for five nested calls. *)
Lemma redispatching_listener_witness :
  completion_of (dispatch looping_code 5 "GO" looping_store) = Throw RangeError.
Proof.
  apply (redispatching_listener_overflows looping_code 0 "AGAIN"
    (Return VUndefined) 5 "GO" looping_store []).
  - reflexivity.
  - intros s x. exact I.
  - reflexivity.
Defined.

(** X6 at the store of the script. *)
Lemma dispatch_returns_calm_witness :
  completion_of
    (dispatch demo_code 1 (plain "NOPE") (subscribe (Fn 0) (createStore app_reducer)).2)
  = Normal VUndefined.
Proof.
  apply (dispatch_returns demo_code 0 (plain "NOPE")
    (subscribe (Fn 0) (createStore app_reducer)).2).
  - vm_compute. exact I.
  - repeat constructor.
  - intros [|f]; simpl; [intros _|]; exact I.
Defined.

(** X7 for [Fn 1] and the listeners of [churn_code]. *)
Lemma later_call_witness :
  let later := store_of (run churn_code 2 (two_dispatches (plain "NOPE") (plain "NOPE"))
                 (unsubscribe (Handle (Fn 1)) churn_store)) in
  registered (unsubscribe (Handle (Fn 1)) later) = registered later ∧
  getState (unsubscribe (Handle (Fn 1)) later) = getState later.
Proof.
  apply (later_call_is_noop churn_code (Fn 1) churn_store 2
    (two_dispatches (plain "NOPE") (plain "NOPE"))).
  - intros [|[|[|[|f]]]]; simpl; try exact I.
    + split; [discriminate|]. intros _. exact I.
    + intros [[t [[|x g]|]]|]; simpl; try exact I.
      intros [v|e]; exact I.
  - simpl. intros [v|e]; simpl; [|exact I]. intros [v'|e']; exact I.
Defined.

(** X9 for the actions of the script. *)
Lemma dispatch_each_witness :
  getState (store_of (run demo_code 1 (dispatch_each demo_actions)
    (subscribe (Fn 0) (createStore app_reducer)).2))
  = foldl (next app_reducer) None demo_actions.
Proof.
  apply (dispatch_each_folds demo_code 1 demo_actions
    (subscribe (Fn 0) (createStore app_reducer)).2).
  intros [|f]; simpl; [intros _|]; exact I.
Defined.

(** X10: the [REMOVE_TODO] of the script. *)
Lemma remove_todo_witness :
  todos (Some (objects [mkTodo 0 "Walk the dog" false; mkTodo 1 "Wash the car" false;
                         mkTodo 2 "Go to the gym" true]))
        (with_id "REMOVE_TODO" 1)
  = Normal (objects (filter (λ t, todo_id t ≠ id (with_id "REMOVE_TODO" 1))
      [mkTodo 0 "Walk the dog" false; mkTodo 1 "Wash the car" false;
       mkTodo 2 "Go to the gym" true])).
Proof.
  apply (remove_todo_filters_by_id
    [mkTodo 0 "Walk the dog" false; mkTodo 1 "Wash the car" false;
     mkTodo 2 "Go to the gym" true] (with_id "REMOVE_TODO" 1)).
  reflexivity.
Defined.

(** X11: the second [ADD_TODO] of the script, undone. *)
Lemma add_then_remove_todo_witness :
  (todos (Some (objects [mkTodo 0 "Walk the dog" false]))
         (add_todo (mkTodo 1 "Wash the car" false))
   ≫= λ l, todos (Some l) (with_id "REMOVE_TODO" 1))
  = Normal (objects [mkTodo 0 "Walk the dog" false]).
Proof.
  apply (add_then_remove_todo [mkTodo 0 "Walk the dog" false]
    (mkTodo 1 "Wash the car" false)
    (add_todo (mkTodo 1 "Wash the car" false)) (with_id "REMOVE_TODO" 1));
    try reflexivity.
  constructor; [discriminate|constructor].
Defined.

(** X12: the [TOGGLE_TODO] of the script, twice. *)
Lemma toggle_twice_witness :
  (todos (Some (objects [mkTodo 0 "Walk the dog" false; mkTodo 2 "Go to the gym" true]))
         (with_id "TOGGLE_TODO" 0)
   ≫= λ l, todos (Some l) (with_id "TOGGLE_TODO" 0))
  = Normal (objects [mkTodo 0 "Walk the dog" false; mkTodo 2 "Go to the gym" true]).
Proof.
  apply (toggle_twice_is_identity
    [mkTodo 0 "Walk the dog" false; mkTodo 2 "Go to the gym" true]
    (with_id "TOGGLE_TODO" 0)).
  reflexivity.
Defined.

(** X13: the [TOGGLE_TODO] of the script. *)
Lemma toggle_keeps_witness :
  ∃ ts',
    todos (Some (objects [mkTodo 0 "Walk the dog" false; mkTodo 2 "Go to the gym" true]))
          (with_id "TOGGLE_TODO" 0)
    = Normal (objects ts') ∧
    todo_id <$> ts' = [Some 0%Z; Some 2%Z] ∧
    todo_name <$> ts' = ["Walk the dog"; "Go to the gym"] ∧
    Forall2 (λ t t', if decide (todo_id t = id (with_id "TOGGLE_TODO" 0))
                     then todo_complete t' = negb (todo_complete t)
                     else t' = t)
      [mkTodo 0 "Walk the dog" false; mkTodo 2 "Go to the gym" true] ts'.
Proof.
  apply (toggle_keeps_ids_and_names
    [mkTodo 0 "Walk the dog" false; mkTodo 2 "Go to the gym" true]
    (with_id "TOGGLE_TODO" 0)).
  reflexivity.
Defined.

(** X14 at the todo array of [holed_store]. *)
Lemma undefined_todo_witness :
  todos (Some [None]) (with_id "TOGGLE_TODO" 0) = Throw TypeError ∧
  app (Some (mkApp (Some [None]) (Some []))) (with_id "TOGGLE_TODO" 0)
  = Throw TypeError.
Proof.
  apply (undefined_todo_breaks_remove_and_toggle [None] (Some [])
    (with_id "TOGGLE_TODO" 0)).
  - apply list_elem_of_singleton. reflexivity.
  - right. reflexivity.
Defined.

(** X15: a [REMOVE_TODO] action without [id]. *)
Lemma action_without_id_witness :
  app (Some (full_state [mkTodo 0 "Walk the dog" false] [mkGoal 1 "Lose 20 pounds"]))
      (plain "REMOVE_TODO")
  = Normal (full_state [mkTodo 0 "Walk the dog" false] [mkGoal 1 "Lose 20 pounds"]).
Proof.
  apply (action_without_id_changes_nothing [mkTodo 0 "Walk the dog" false]
    [mkGoal 1 "Lose 20 pounds"] (plain "REMOVE_TODO"));
    [reflexivity|discriminate|discriminate| |];
    (constructor; [by eexists|constructor]).
Defined.

(** A todo without [id] is matched by an action without [id]:
    [REMOVE_TODO] removes it and [TOGGLE_TODO] toggles it. *)
Example action_without_id_matches_missing_id :
  todos (Some (objects [Todo None "No id" false; mkTodo 0 "Walk the dog" false]))
        (plain "REMOVE_TODO")
  = Normal (objects [mkTodo 0 "Walk the dog" false]) ∧
  todos (Some (objects [Todo None "No id" false; mkTodo 0 "Walk the dog" false]))
        (plain "TOGGLE_TODO")
  = Normal (objects [Todo None "No id" true; mkTodo 0 "Walk the dog" false]).
Proof. split; reflexivity. Qed.

(** X16: an [ADD_GOAL] of the script leaves the todos. *)
Lemma slices_react_witness :
  let s := full_state [mkTodo 0 "Walk the dog" true] [] in
  let r := full_state [mkTodo 0 "Walk the dog" true] [mkGoal 0 "Learn Redux"] in
  let a := add_goal (mkGoal 0 "Learn Redux") in
  (type a ∉ todos_cases → todos_slice r = Some (default [] (todos_slice s))) ∧
  (type a ∉ goals_cases → goals_slice r = Some (default [] (goals_slice s))).
Proof.
  apply (slices_react_to_own_actions
    (full_state [mkTodo 0 "Walk the dog" true] [])
    (full_state [mkTodo 0 "Walk the dog" true] [mkGoal 0 "Learn Redux"])
    (add_goal (mkGoal 0 "Learn Redux"))).
  reflexivity.
Defined.

(** X17: the first [ADD_TODO] of the script. *)
Lemma app_keeps_objects_witness :
  ∃ ts' gs',
    app (Some (full_state [] [])) (add_todo (mkTodo 0 "Walk the dog" false))
    = Normal (full_state ts' gs').
Proof.
  apply (app_keeps_objects [] [] (add_todo (mkTodo 0 "Walk the dog" false))).
  split; [intros _; by eexists|discriminate].
Defined.

(** X18 for the actions of the script, at [faulty_store], whose first
    listener throws in every pass. *)
Lemma payload_actions_witness :
  registered faulty_store = [Fn 0; Fn 1] ∧
  ∃ ts gs,
    getState (store_of (run faulty_code 1 (dispatch_each demo_actions) faulty_store))
    = Some (full_state ts gs).
Proof.
  split; [reflexivity|].
  apply (payload_actions_keep_store_state faulty_code 1 demo_actions faulty_store).
  - reflexivity.
  - left. reflexivity.
  - intros [|f]; exact I.
  - unfold demo_actions.
    repeat (apply Forall_cons; split;
      [split; intros H; (discriminate H || (eexists; reflexivity))|]).
    constructor.
  - discriminate.
Defined.

(** X19: two states with the same todos and different goals. *)
Lemma app_slices_isolated_witness :
  let a := with_id "TOGGLE_TODO" 0 in
  let s1 := full_state [mkTodo 0 "Walk the dog" false] [] in
  let s2 := full_state [mkTodo 0 "Walk the dog" false] [mkGoal 1 "Lose 20 pounds"] in
  let r1 := full_state [mkTodo 0 "Walk the dog" true] [] in
  let r2 := full_state [mkTodo 0 "Walk the dog" true] [mkGoal 1 "Lose 20 pounds"] in
  (todos_slice s1 = todos_slice s2 → todos_slice r1 = todos_slice r2) ∧
  (goals_slice s1 = goals_slice s2 → goals_slice r1 = goals_slice r2).
Proof.
  apply (app_slices_isolated
    (full_state [mkTodo 0 "Walk the dog" false] [])
    (full_state [mkTodo 0 "Walk the dog" false] [mkGoal 1 "Lose 20 pounds"])
    (full_state [mkTodo 0 "Walk the dog" true] [])
    (full_state [mkTodo 0 "Walk the dog" true] [mkGoal 1 "Lose 20 pounds"])
    (with_id "TOGGLE_TODO" 0)); reflexivity.
Defined.

(** X20: the second [ADD_GOAL] of the script, undone. *)
Lemma add_then_remove_goal_witness :
  (goals (Some (objects [mkGoal 0 "Learn Redux"]))
         (add_goal (mkGoal 1 "Lose 20 pounds"))
   ≫= λ l, goals (Some l) (with_id "REMOVE_GOAL" 1))
  = Normal (objects [mkGoal 0 "Learn Redux"]).
Proof.
  apply (add_then_remove_goal [mkGoal 0 "Learn Redux"] (mkGoal 1 "Lose 20 pounds")
    (add_goal (mkGoal 1 "Lose 20 pounds")) (with_id "REMOVE_GOAL" 1));
    try reflexivity.
  constructor; [discriminate|constructor].
Defined.
